(** * Tap gesture synthesis and heatmap track hit-testing

    A shallow embedding of
    - [packages/core/src/events/TapEvent.ts]: the listeners that derive
      [tapstart] / [tap] / [tapend] from mouse, touch and keyboard events;
    - [packages/elements/src/heatmap/helpers/track.ts]: the [Track] helper.

    Conventions.
    - Event targets are object references ([EventTarget := nat]); [===] on
      two targets is equality of references.
    - What the page and the browser decide (node types, selector matching,
      the user agent, whether a page listener cancels a synthetic event) is
      gathered in a [Platform] record that the listeners take as a parameter.
    - A listener is a computation in a small monad [M] with mutable state
      (the closure variables of one installation and the module-level
      variables), a log of the effects it performs, and JavaScript
      exceptions ([Throw]), so that [try ... finally] can be written as in
      the source.
    - The numbers of the track are binary64 floating-point values, with
      the rounding, the NaN, the infinities and the signed zeros of the
      source. *)


From stdpp Require Import base list strings gmap.
From Stdlib Require Import ZArith QArith Lia Floats.
From Stdlib Require Uint63.

Close Scope Q_scope.
Close Scope Z_scope.

(** A decimal literal stands for the nearest binary64 value, as it does
    in the source. *)
Set Warnings "-inexact-float".


Set Default Proof Using "Type".

(** ** Data *)

Abbreviation EventTarget := nat.

(** [type Positions] *)
Record Positions := {
  pageX : Q; pageY : Q; screenX : Q; screenY : Q; clientX : Q; clientY : Q
}.

(** [type MetaKeys] *)
Record MetaKeys := {
  altKey : bool; ctrlKey : bool; metaKey : bool; shiftKey : bool
}.

(** [class TapEvent extends Event]: the event type, the [EventInit] flags
    and the ten public fields. *)
Record TapEvent := {
  tap_type : string;
  tap_bubbles : bool;
  tap_composed : bool;
  tap_cancelable : bool;
  tap_positions : Positions;
  tap_metaKeys : MetaKeys
}.

(** The fields of a native [MouseEvent] (or [PointerEvent]) that the
    listeners read. [m_target] is [event.target], [m_path] is
    [event.composedPath()], innermost target first. *)
Record MouseEvent := {
  m_target : option EventTarget;
  m_path : list EventTarget;
  m_positions : Positions;
  m_metaKeys : MetaKeys;
  m_detail : Z;
  m_isPointerEvent : bool
}.

(** A [Touch] point. *)
Record Touch := {
  identifier : Z;
  t_positions : Positions
}.

(** A native [TouchEvent]: [changedTouches] and [composedPath()]. *)
Record TouchEvent := {
  changedTouches : list Touch;
  te_path : list EventTarget
}.

(** A native [KeyboardEvent]: [key] and [composedPath()]. *)
Record KeyboardEvent := {
  key : string;
  k_path : list EventTarget
}.

(** The third argument of [dispatchTapOnTarget]: [MouseEvent | Touch]. *)
Inductive Info :=
| InfoMouse (event : MouseEvent)
| InfoTouch (touch : Touch).

(** [info instanceof Event]: a [Touch] is not an [Event]. *)
Definition instanceof_Event (info : Info) : bool :=
  match info with InfoMouse _ => true | InfoTouch _ => false end.

Definition info_positions (info : Info) : Positions :=
  match info with
  | InfoMouse e => m_positions e
  | InfoTouch t => t_positions t
  end.

(** What the surrounding page and browser decide. *)
Record Platform := {
  (** [node.nodeType]; [None] for a target that is not a [Node]
      (the window). *)
  nodeType : EventTarget -> option Z;
  (** [target instanceof HTMLElement] *)
  isHTMLElement : EventTarget -> bool;
  (** [matches(element, selector)] of [utils/matches] *)
  matches : EventTarget -> string -> bool;
  (** [(/Trident/g).test(navigator.userAgent)] *)
  isIE : bool;
  (** [tapEvent.defaultPrevented] once [target.dispatchEvent(tapEvent)]
      has run the page's listeners. *)
  defaultPrevented : EventTarget -> TapEvent -> bool
}.

(** [Node.ELEMENT_NODE] *)
Definition ELEMENT_NODE : Z := 1.

(** ** State *)

(** The module-level [let positions] and [let metaKeys]. *)
Record ModuleVars := {
  positions : option Positions;
  metaKeys : option MetaKeys
}.

(** The [let] variables in the closure of one call of [applyEvent]. *)
Record Closure := {
  startTouch : option Touch;
  currentTouch : Z;
  lastTapTarget : option EventTarget;
  mouseEventPath : list EventTarget;
  touchEventPath : list EventTarget
}.

(** The three constants [onTap], [onTapEnd], [onTapStart] of the closure. *)
Record Flags := {
  onTap : bool;
  onTapEnd : bool;
  onTapStart : bool
}.

Record Heap := {
  closure : Closure;
  shared : ModuleVars
}.

Definition initial_closure : Closure :=
  {| startTouch := None; currentTouch := (-1)%Z; lastTapTarget := None;
     mouseEventPath := []; touchEventPath := [] |}.

Definition initial_module : ModuleVars :=
  {| positions := None; metaKeys := None |}.

Definition set_startTouch (v : option Touch) (c : Closure) : Closure :=
  {| startTouch := v; currentTouch := currentTouch c;
     lastTapTarget := lastTapTarget c; mouseEventPath := mouseEventPath c;
     touchEventPath := touchEventPath c |}.

Definition set_currentTouch (v : Z) (c : Closure) : Closure :=
  {| startTouch := startTouch c; currentTouch := v;
     lastTapTarget := lastTapTarget c; mouseEventPath := mouseEventPath c;
     touchEventPath := touchEventPath c |}.

Definition set_lastTapTarget (v : option EventTarget) (c : Closure) : Closure :=
  {| startTouch := startTouch c; currentTouch := currentTouch c;
     lastTapTarget := v; mouseEventPath := mouseEventPath c;
     touchEventPath := touchEventPath c |}.

Definition set_mouseEventPath (v : list EventTarget) (c : Closure) : Closure :=
  {| startTouch := startTouch c; currentTouch := currentTouch c;
     lastTapTarget := lastTapTarget c; mouseEventPath := v;
     touchEventPath := touchEventPath c |}.

Definition set_touchEventPath (v : list EventTarget) (c : Closure) : Closure :=
  {| startTouch := startTouch c; currentTouch := currentTouch c;
     lastTapTarget := lastTapTarget c; mouseEventPath := mouseEventPath c;
     touchEventPath := v |}.

(** ** Effects *)

(** What a listener does to the outside world. [PreventDefault] is
    [preventDefault()] called on the native event being handled. *)
Inductive Effect :=
| DispatchEvent (target : EventTarget) (ev : TapEvent)
| PreventDefault
| Click (target : EventTarget).

(** The exceptions the listeners can raise: reading a property of
    [undefined]. *)
Inductive Exn :=
| TypeError (reading : string).

Inductive Completion (A : Type) :=
| Normal (a : A)
| Throw (e : Exn).
Arguments Normal {A} a.
Arguments Throw {A} e.

#[projections(primitive)]
Record Outcome (A : Type) := {
  completion : Completion A;
  heap : Heap;
  effects : list Effect
}.
Arguments completion {A} o.
Arguments heap {A} o.
Arguments effects {A} o.

Definition M (A : Type) : Type := Heap -> Outcome A.

Definition ret {A} (a : A) : M A :=
  fun h => {| completion := Normal a; heap := h; effects := [] |}.

Definition bind {A B} (m : M A) (k : A -> M B) : M B :=
  fun h =>
    let r := m h in
    match completion r with
    | Normal a =>
        let r' := k a (heap r) in
        {| completion := completion r'; heap := heap r';
           effects := effects r ++ effects r' |}
    | Throw e =>
        {| completion := Throw e; heap := heap r; effects := effects r |}
    end.

Declare Scope js_scope.
Delimit Scope js_scope with js.
Notation "'let*' x := m 'in' k" := (bind m (fun x => k))
  (at level 10, x name, m at level 100, k at level 200) : js_scope.
Notation "m ;; k" := (bind m (fun _ => k))
  (at level 100, k at level 200, right associativity) : js_scope.
Open Scope js_scope.

Definition throw {A} (e : Exn) : M A :=
  fun h => {| completion := Throw e; heap := h; effects := [] |}.

Definition read {A} (f : Closure -> A) : M A :=
  fun h => {| completion := Normal (f (closure h)); heap := h; effects := [] |}.

Definition write (f : Closure -> Closure) : M unit :=
  fun h => {| completion := Normal tt;
              heap := {| closure := f (closure h); shared := shared h |};
              effects := [] |}.

Definition read_module : M ModuleVars :=
  fun h => {| completion := Normal (shared h); heap := h; effects := [] |}.

Definition write_module (mv : ModuleVars) : M unit :=
  fun h => {| completion := Normal tt;
              heap := {| closure := closure h; shared := mv |};
              effects := [] |}.

Definition perform (e : Effect) : M unit :=
  fun h => {| completion := Normal tt; heap := h; effects := [e] |}.

(** [a && f()] as a statement *)
Definition when (b : bool) (m : M unit) : M unit :=
  if b then m else ret tt.

(** [try { body } finally { cleanup }]: the cleanup always runs; an
    exception of the body is raised again after it. *)
Definition try_finally (body cleanup : M unit) : M unit :=
  fun h =>
    let r := body h in
    let c := cleanup (heap r) in
    {| completion :=
         match completion c with
         | Normal _ => completion r
         | Throw e => Throw e
         end;
       heap := heap c;
       effects := effects r ++ effects c |}.

(** A value used as a condition: an object is truthy, [undefined] and
    [null] are not. *)
Definition truthy {A} (o : option A) : bool :=
  match o with Some _ => true | None => false end.

(** ** Paths *)

(** [array.splice(0, n)]: removes the first [n] entries, those nearest to
    the innermost target. *)
Definition splice0 {A} (n : nat) (l : list A) : list A := drop n l.

(** The reconciliation at the start of the [mouseup] listener: the stored
    [mouseEventPath] and the local [path] after the two [splice] calls. *)
Definition reconcile_mouse (mouseEventPath path : list EventTarget)
  : list EventTarget * list EventTarget :=
  if length mouseEventPath <? length path then
    (mouseEventPath, splice0 (length path - length mouseEventPath) path)
  else if length path <? length mouseEventPath then
    (splice0 (length mouseEventPath - length path) mouseEventPath, path)
  else (mouseEventPath, path).

(** The reconciliation in the [touchend] listener: only [path] is spliced;
    [touchEventPath] is returned as it was. *)
Definition reconcile_touch (touchEventPath path : list EventTarget)
  : list EventTarget * list EventTarget :=
  if length touchEventPath <? length path then
    (touchEventPath, splice0 (length path - length touchEventPath) path)
  else (touchEventPath, path).

Section Listeners.
Context (P : Platform).

(** [new TapEvent(type, { bubbles: true, composed: true, cancelable: true })]:
    the constructor copies the module-level variables when they are set. *)
Definition new_TapEvent (type : string) (mv : ModuleVars) : TapEvent :=
  {| tap_type := type;
     tap_bubbles := true; tap_composed := true; tap_cancelable := true;
     tap_positions :=
       match positions mv with
       | Some p => p
       | None => {| pageX := 0%Q; pageY := 0%Q; screenX := 0%Q;
                    screenY := 0%Q; clientX := 0%Q; clientY := 0%Q |}
       end;
     tap_metaKeys :=
       match metaKeys mv with
       | Some k => k
       | None => {| altKey := false; ctrlKey := false; metaKey := false;
                    shiftKey := false |}
       end |}.

(** [dispatchTapOnTarget]. The callers can pass [undefined] for both
    [target] (the [click] listener, on an empty path) and [info] (the
    [touchend] listener, on empty [changedTouches]); destructuring
    [undefined] and calling a method of [undefined] raise. *)
Definition dispatchTapOnTarget (type : string) (target : option EventTarget)
    (info : option Info) : M unit :=
  match info with
  | None => throw (TypeError "pageX")
  | Some info =>
      write_module
        {| positions := Some (info_positions info);
           metaKeys := match info with
                       | InfoMouse e => Some (m_metaKeys e)
                         (* [info instanceof MouseEvent] *)
                       | InfoTouch _ => None
                       end |};;
      let* mv := read_module in
      let tapEvent := new_TapEvent type mv in
      match target with
      | None => throw (TypeError "dispatchEvent")
      | Some target =>
          perform (DispatchEvent target tapEvent);;
          when (defaultPrevented P target tapEvent && instanceof_Event info)
               (perform PreventDefault)
      end
  end.

(** [isButtonEnterOrSpace] *)
Definition isButtonEnterOrSpace (event : MouseEvent) : bool :=
  if isIE P && m_isPointerEvent event then false
  else (m_detail event =? 0)%Z.

(** [onEnterOrSpacebar] *)
Definition onEnterOrSpacebar (event : KeyboardEvent) : M unit :=
  match k_path event !! 0 with
  | Some tapTarget =>
      if isHTMLElement P tapTarget
         && matches P tapTarget "[role=button]"
         && negb (matches P tapTarget
                    "button,a,input[type=button],input[type=submit]")
      then perform PreventDefault;; perform (Click tapTarget)
      else ret tt
  | None => ret tt
  end.

(** [(path[i] as Node).nodeType === Node.ELEMENT_NODE] *)
Definition is_element_node (t : EventTarget) : bool :=
  match nodeType P t with
  | Some n => (n =? ELEMENT_NODE)%Z
  | None => false
  end.

(** The condition of the [if] in the loop of the [mouseup] listener, at
    index [i]. Both paths have the same length there, so both lookups
    succeed for every [i] the loop visits. *)
Definition shared_element_at (mouseEventPath path : list EventTarget)
    (i : nat) : bool :=
  match mouseEventPath !! i, path !! i with
  | Some a, Some b => (a =? b) && is_element_node b
  | _, _ => false
  end.

(** [for (let i = 0; i < mouseEventPath.length - 1; i += 1)] with its
    [break]: the first index the loop stops at, if any. *)
Definition closest_shared_index (mouseEventPath path : list EventTarget)
  : option nat :=
  List.find (shared_element_at mouseEventPath path)
            (seq 0 (length mouseEventPath - 1)).

Context (fl : Flags).

(** The [mousedown] listener. *)
Definition on_mousedown (event : MouseEvent) : M unit :=
  let* last := read lastTapTarget in
  let* current := read currentTouch in
  if negb (truthy last) && truthy (m_target event) && (current =? -1)%Z then
    write (set_mouseEventPath (m_path event));;
    let* mouseEventPath := read mouseEventPath in
    match mouseEventPath !! 0 with
    | Some tapTarget =>
        when (onTapStart fl)
             (dispatchTapOnTarget "tapstart" (Some tapTarget)
                                  (Some (InfoMouse event)))
    | None => ret tt
    end
  else ret tt.

(** The [mouseup] listener. *)
Definition on_mouseup (event : MouseEvent) : M unit :=
  let* last := read lastTapTarget in
  if truthy last then
    write (set_lastTapTarget None)
  else
    let path := m_path event in
    match path !! 0 with
    | Some tapEndTarget =>
        when (onTapEnd fl)
             (dispatchTapOnTarget "tapend" (Some tapEndTarget)
                                  (Some (InfoMouse event)))
    | None => ret tt
    end;;
    if negb (onTap fl) then ret tt
    else
      let* stored := read mouseEventPath in
      let '(stored', path') := reconcile_mouse stored path in
      write (set_mouseEventPath stored');;
      match closest_shared_index stored' path' with
      | Some i =>
          dispatchTapOnTarget "tap" (stored' !! i) (Some (InfoMouse event))
      | None => ret tt
      end.

(** The [touchstart] listener. *)
Definition on_touchstart (event : TouchEvent) : M unit :=
  write (set_startTouch (changedTouches event !! 0));;
  let* startTouch := read startTouch in
  match startTouch with
  | None => throw (TypeError "identifier")
  | Some touch =>
      write (set_currentTouch (identifier touch));;
      write (set_touchEventPath (te_path event));;
      let* touchEventPath := read touchEventPath in
      match touchEventPath !! 0 with
      | Some tapTarget =>
          when (onTapStart fl)
               (dispatchTapOnTarget "tapstart" (Some tapTarget)
                                    (Some (InfoTouch touch)))
      | None => ret tt
      end
  end.

(** The [touchmove] listener. *)
Definition on_touchmove : M unit :=
  write (set_currentTouch (-1)).

(** The [touchend] listener. *)
Definition on_touchend (event : TouchEvent) : M unit :=
  try_finally
    (let touch := changedTouches event !! 0 in
     let* touchEventPath := read touchEventPath in
     let path := snd (reconcile_touch touchEventPath (te_path event)) in
     match path !! 0 with
     | Some tapTarget =>
         when (onTapEnd fl)
              (dispatchTapOnTarget "tapend" (Some tapTarget)
                                   (InfoTouch <$> touch));;
         match touch with
         | None => throw (TypeError "identifier")
         | Some touch =>
             let* current := read currentTouch in
             if (identifier touch =? current)%Z then
               write (set_lastTapTarget (Some tapTarget));;
               when (onTap fl)
                    (dispatchTapOnTarget "tap" (Some tapTarget)
                                         (Some (InfoTouch touch)))
             else ret tt
         end
     | None => ret tt
     end)
    (write (set_currentTouch (-1))).

(** The [click] listener. *)
Definition on_click (event : MouseEvent) : M unit :=
  if isButtonEnterOrSpace event then
    let tapTarget := m_path event !! 0 in
    when (onTap fl)
         (dispatchTapOnTarget "tap" tapTarget (Some (InfoMouse event)))
  else ret tt.

(** The [keyup] listener. *)
Definition on_keyup (event : KeyboardEvent) : M unit :=
  if String.eqb (key event) "Enter"
     || String.eqb (key event) "Spacebar"
     || String.eqb (key event) " "
  then onEnterOrSpacebar event
  else ret tt.

End Listeners.

(** ** Observations on a log of effects *)

(** The targets on which an event of type [type] was dispatched, in order. *)
Fixpoint dispatched_on (type : string) (effs : list Effect) : list EventTarget :=
  match effs with
  | [] => []
  | DispatchEvent t ev :: rest =>
      if String.eqb (tap_type ev) type
      then t :: dispatched_on type rest
      else dispatched_on type rest
  | _ :: rest => dispatched_on type rest
  end.

(** The types of the synthetic events dispatched, in order. *)
Fixpoint dispatched_types (effs : list Effect) : list string :=
  match effs with
  | [] => []
  | DispatchEvent _ ev :: rest => tap_type ev :: dispatched_types rest
  | _ :: rest => dispatched_types rest
  end.

(** Whether [preventDefault()] was called on the native event. *)
Definition native_prevented (effs : list Effect) : bool :=
  existsb (fun e => match e with PreventDefault => true | _ => false end) effs.

(** ** The algorithm of the specification, for comparison

    Section 4.3, steps 4 and 5, word for word: the longer sequence is
    trimmed "from its outer end" (its last entries, the path being
    innermost first), and the aligned sequences are walked "from the
    outermost index inward". *)
Definition spec_reconcile (stored path : list EventTarget)
  : list EventTarget * list EventTarget :=
  let n := length stored `min` length path in
  (take n stored, take n path).

Definition spec_tap_target (P : Platform) (stored path : list EventTarget)
  : option EventTarget :=
  let '(s, p) := spec_reconcile stored path in
  match List.find (shared_element_at P s p) (rev (seq 0 (length s))) with
  | Some i => s !! i
  | None => None
  end.

(** ** Installation *)

(** The values a property of the installation target can hold, as far as
    the listeners care. *)
Inductive JsValue :=
| JsNull
| JsUndefined
| JsObject (ref : nat).

(** One call of [applyEvent] that got past the early [return]: its
    constants and its closure variables. All seven listeners of that call
    are registered together. *)
Record Installation := {
  flags : Flags;
  vars : Closure
}.

(** The installation target ([globalThis]): its own properties and the
    installations whose listeners it carries, oldest first. *)
Record Global := {
  properties : gmap string JsValue;
  installations : list Installation
}.

(** [name in target] *)
Definition has_property (name : string) (target : Global) : bool :=
  truthy (properties target !! name).

(** [applyEvent] *)
Definition applyEvent (target : Global) : Global :=
  let onTap := negb (has_property "ontap" target) in
  let onTapEnd := negb (has_property "ontapend" target) in
  let onTapStart := negb (has_property "ontapstart" target) in
  if negb onTap && negb onTapEnd && negb onTapStart then target
  else
    {| properties :=
         <["ontapend" := JsNull]>
           (<["ontapstart" := JsNull]>
              (<["ontap" := JsNull]> (properties target)));
       installations :=
         installations target ++
         [ {| flags := {| onTap := onTap; onTapEnd := onTapEnd;
                          onTapStart := onTapStart |};
              vars := initial_closure |} ] |}.

(** The native events the listeners are registered for. *)
Inductive NativeEvent :=
| Mousedown (event : MouseEvent)
| Mouseup (event : MouseEvent)
| Touchstart (event : TouchEvent)
| Touchmove (event : TouchEvent)
| Touchend (event : TouchEvent)
| ClickEvent (event : MouseEvent)
| Keyup (event : KeyboardEvent).

(** The listener of one installation that a native event reaches. *)
Definition listener (P : Platform) (fl : Flags) (ev : NativeEvent) : M unit :=
  match ev with
  | Mousedown e => on_mousedown P fl e
  | Mouseup e => on_mouseup P fl e
  | Touchstart e => on_touchstart P fl e
  | Touchmove _ => on_touchmove
  | Touchend e => on_touchend P fl e
  | ClickEvent e => on_click P fl e
  | Keyup e => on_keyup P e
  end.

(** One installation handling a sequence of native events, one after the
    other. An exception ends the listener that raised it, not the
    sequence. The result is the final heap and, per event, the effects. *)
Fixpoint run (P : Platform) (fl : Flags) (evs : list NativeEvent) (h : Heap)
  : Heap * list (list Effect) :=
  match evs with
  | [] => (h, [])
  | ev :: rest =>
      let r := listener P fl ev h in
      let '(h', effs) := run P fl rest (heap r) in
      (h', effects r :: effs)
  end.

(** A native event reaching the installation target: the listeners of every
    installation run, in the order the installations were made. *)
Fixpoint deliver (P : Platform) (ev : NativeEvent) (insts : list Installation)
    (mv : ModuleVars) : list Installation * ModuleVars * list Effect :=
  match insts with
  | [] => ([], mv, [])
  | i :: rest =>
      let r := listener P (flags i) ev {| closure := vars i; shared := mv |} in
      let '(rest', mv', effs) := deliver P ev rest (shared (heap r)) in
      ({| flags := flags i; vars := closure (heap r) |} :: rest', mv',
       effects r ++ effs)
  end.

(** A sequence of native events reaching the installation target. *)
Fixpoint deliver_all (P : Platform) (evs : list NativeEvent)
    (insts : list Installation) (mv : ModuleVars) : list Effect :=
  match evs with
  | [] => []
  | ev :: rest =>
      let '(insts', mv', effs) := deliver P ev insts mv in
      effs ++ deliver_all P rest insts' mv'
  end.

(** Whether the listener for [ev] hands the native event itself to
    [dispatchTapOnTarget] as [info] (the mouse and click listeners do; the
    touch listeners hand over a [Touch], the keyup listener dispatches
    nothing). *)
Definition passes_event_as_info (ev : NativeEvent) : bool :=
  match ev with
  | Mousedown _ | Mouseup _ | ClickEvent _ => true
  | Touchstart _ | Touchmove _ | Touchend _ | Keyup _ => false
  end.

(** Whether an installation with constants [fl] may dispatch an event of
    type [type]. *)
Definition enabled (fl : Flags) (type : string) : bool :=
  if String.eqb type "tap" then onTap fl
  else if String.eqb type "tapend" then onTapEnd fl
  else if String.eqb type "tapstart" then onTapStart fl
  else false.

(** ** The heatmap track

    A JavaScript number is an IEEE 754 binary64 value: a [float], with the
    operations of the processor for [+], [-], [/], [<], [<=] and [==]
    ([x >= y] is [y <=? x], [x > 0] is [0 <? x]). NaN, the infinities and
    the two zeros are values like the others; every operation rounds as
    the source does. [Math.floor] and [| 0] are written on the sign,
    mantissa and exponent of their argument, which [Prim2SF] gives.

    The lane arrays hold what [| 0] returns, signed 32-bit integers, and
    the difference of two of them. Such integers are numbers without
    rounding; the arrays keep them as [Z], and [of_Z] gives the number
    where the source computes with them. [laneCount] is the length of an
    array, a natural number: [init] is modelled for the counts that
    [new Array] accepts. *)
Module Track.

(** An integer as a number. The integers of the track are below 2^53 in
    absolute value, where the conversion does not round. *)
Definition of_Z (z : Z) : float :=
  if (z <? 0)%Z then (- of_uint63 (Uint63.of_Z (- z)))%float
  else of_uint63 (Uint63.of_Z z).

(** [Math.floor(x)]: [x] itself when it is NaN, infinite, a zero or has
    no fractional bits; otherwise the integer below. *)
Definition floor (x : float) : float :=
  match Prim2SF x with
  | S754_finite s m e =>
      if (0 <=? e)%Z then x
      else of_Z ((if s then Z.neg m else Z.pos m) / 2 ^ (- e))%Z
  | _ => x
  end.

(** [x | 0]: NaN and the infinities give 0; any other number is cut to
    its integer part, taken modulo 2^32 as a signed 32-bit integer. *)
Definition toInt32 (x : float) : Z :=
  match Prim2SF x with
  | S754_finite s m e =>
      let magnitude :=
        if (0 <=? e)%Z then (Z.pos m * 2 ^ e)%Z else (Z.pos m / 2 ^ (- e))%Z in
      let z := if s then (- magnitude)%Z else magnitude in
      ((z + 2 ^ 31) mod 2 ^ 32 - 2 ^ 31)%Z
  | _ => 0%Z
  end.

(** A number as a condition: false for the zeros and NaN. *)
Definition toBoolean (x : float) : bool :=
  negb (x =? 0)%float && negb (is_nan x).

(** The private fields. An array entry is [None] where the array has a
    hole ([new Array(n)] creates [n] of them). *)
Record Track := {
  laneSizes : list (option Z);
  laneStarts : list (option Z);
  trackSize : float;
  margin : float
}.

(** [new Track()] *)
Definition new : Track :=
  {| laneSizes := []; laneStarts := [Some 0%Z]; trackSize := 0%float;
     margin := 0.5%float |}.

(** [get laneCount] *)
Definition laneCount (t : Track) : nat := length (laneSizes t).

(** [array[i] = v] for [i] within the array or at its end. *)
Definition array_set (i : nat) (v : Z) (a : list (option Z))
  : list (option Z) :=
  if i <? length a then <[i := Some v]> a
  else a ++ replicate (i - length a) None ++ [Some v].

(** The loop of [init], from index [i], with [n] lanes still to fill. *)
Fixpoint init_loop (laneSize : float) (n i : nat) (start : float)
    (starts sizes : list (option Z)) : list (option Z) * list (option Z) :=
  match n with
  | O => (starts, sizes)
  | S n' =>
      let end_ := (start + laneSize)%float in
      let starts' := array_set i (toInt32 start) starts in
      let sizes' := array_set i (toInt32 end_ - toInt32 start)%Z sizes in
      init_loop laneSize n' (S i) end_ starts' sizes'
  end.

(** [init(trackSize, laneCount)]; [margin] is kept. *)
Definition init (t : Track) (trackSize : float) (laneCount : nat) : Track :=
  let sizes := replicate laneCount None in
  let starts := array_set 0 0%Z (replicate laneCount None) in
  if toBoolean trackSize && negb (laneCount =? 0) then
    let laneSize := (trackSize / of_Z (Z.of_nat laneCount))%float in
    let '(starts', sizes') :=
      init_loop laneSize laneCount 0 0%float starts sizes in
    {| laneSizes := sizes'; laneStarts := starts'; trackSize := trackSize;
       margin := margin t |}
  else
    {| laneSizes := sizes; laneStarts := starts; trackSize := trackSize;
       margin := margin t |}.

(** The integer a number denotes as an array index: a zero of either sign
    denotes 0, a positive number without fractional part itself; any
    other number is no index. *)
Definition array_index (index : float) : option Z :=
  match Prim2SF index with
  | S754_zero _ => Some 0%Z
  | S754_finite false m e =>
      if (0 <=? e)%Z then Some (Z.pos m * 2 ^ e)%Z
      else if (Z.pos m mod 2 ^ (- e) =? 0)%Z then Some (Z.pos m / 2 ^ (- e))%Z
      else None
  | _ => None
  end.

(** [array[index]]: [undefined] for a number that is no index, an index
    from the length on, or a hole. *)
Definition array_get (a : list (option Z)) (index : float) : option Z :=
  match array_index index with
  | Some z =>
      if (z <? Z.of_nat (length a))%Z then mjoin (a !! Z.to_nat z) else None
  | None => None
  end.

(** [value || 0]: [undefined] and [0] both give [0]. *)
Definition or_zero (v : option Z) : Z :=
  match v with Some z => z | None => 0%Z end.

Definition getLaneSize (t : Track) (index : float) : Z :=
  or_zero (array_get (laneSizes t) index).

Definition getLaneStart (t : Track) (index : float) : Z :=
  or_zero (array_get (laneStarts t) index).


Definition getContentSize (t : Track) (index : float) : float :=
  let contentSize :=
    (of_Z (getLaneSize t index) - margin t - margin t)%float in
  if (0 <? contentSize)%float then contentSize else 0%float.

Definition getContentStart (t : Track) (index : float) : float :=
  (of_Z (getLaneStart t index) + margin t)%float.

Definition getContentEnd (t : Track) (index : float) : float :=
  (getContentStart t index + getContentSize t index)%float.

Definition hitTest (t : Track) (mousePixel : float) : float :=
  let laneSize := (trackSize t / of_Z (Z.of_nat (laneCount t)))%float in
  let index := floor (mousePixel / laneSize) in
  if (0 <=? index)%float && (index <? of_Z (Z.of_nat (laneCount t)))%float
  then
    if (mousePixel <? getContentStart t index)%float
       || (getContentEnd t index <=? mousePixel)%float
    then (-1)%float
    else index
  else (-1)%float.



(** [set margin (value)] *)
Definition set_margin (t : Track) (value : float) : Track :=
  {| laneSizes := laneSizes t; laneStarts := laneStarts t;
     trackSize := trackSize t; margin := value |}.

End Track.

(** ** Further observations *)

(** The synthetic events dispatched, with their targets, in order. *)
Fixpoint dispatched (effs : list Effect) : list (EventTarget * TapEvent) :=
  match effs with
  | [] => []
  | DispatchEvent t ev :: rest => (t, ev) :: dispatched rest
  | _ :: rest => dispatched rest
  end.

(** The point a listener reads the coordinates from: the mouse event
    itself, or the first changed touch of a touch event. *)
Definition native_positions (ev : NativeEvent) : option Positions :=
  match ev with
  | Mousedown e | Mouseup e | ClickEvent e => Some (m_positions e)
  | Touchstart e | Touchend e => t_positions <$> changedTouches e !! 0
  | Touchmove _ | Keyup _ => None
  end.

(** The modifier keys a listener reads: those of the mouse event; a touch
    has none. *)
Definition native_metaKeys (ev : NativeEvent) : option MetaKeys :=
  match ev with
  | Mousedown e | Mouseup e | ClickEvent e => Some (m_metaKeys e)
  | _ => None
  end.

(** The native events whose listener contains a dispatch of [tap]. *)
Definition can_tap (ev : NativeEvent) : bool :=
  match ev with
  | Mouseup _ | Touchend _ | ClickEvent _ => true
  | _ => false
  end.

(** The synthetic event [dispatchTapOnTarget] builds from a mouse
    event. *)
Definition tap_from_mouse (type : string) (e : MouseEvent) : TapEvent :=
  new_TapEvent type {| positions := Some (m_positions e);
                       metaKeys := Some (m_metaKeys e) |}.

(** The synthetic event [dispatchTapOnTarget] builds from a touch. *)
Definition tap_from_touch (type : string) (t : Touch) : TapEvent :=
  new_TapEvent type {| positions := Some (t_positions t); metaKeys := None |}.

(** One physical activation, as the native events it makes the browser
    deliver: a touch tap (touchstart, touchmoves, touchend, then the
    compatibility mousedown, mouseup and click), a mouse click (mousedown,
    mouseup, click), or a key press on the focused element (keyup, and the
    click that goes with it). *)
Inductive Activation :=
| TouchTap (start : TouchEvent) (moves : list TouchEvent)
    (finish : TouchEvent) (down up click : MouseEvent)
| MouseClick (down up click : MouseEvent)
| KeyPress (keyup : KeyboardEvent) (click : MouseEvent).

Definition native_events (a : Activation) : list NativeEvent :=
  match a with
  | TouchTap start moves finish down up click =>
      Touchstart start
      :: map Touchmove moves
      ++ [Touchend finish; Mousedown down; Mouseup up; ClickEvent click]
  | MouseClick down up click => [Mousedown down; Mouseup up; ClickEvent click]
  | KeyPress keyup click => [Keyup keyup; ClickEvent click]
  end.

(** A click that comes from a pointer counts the clicks in [detail], from
    1 on; on IE it is a [PointerEvent], whatever its [detail]. *)
Definition pointer_click (P : Platform) (click : MouseEvent) : bool :=
  (0 <? m_detail click)%Z || (isIE P && m_isPointerEvent click).

(** The click of a touch tap and of a mouse click comes from a pointer. *)
Definition clicks_from_pointer (P : Platform) (a : Activation) : bool :=
  match a with
  | TouchTap _ _ _ _ _ click | MouseClick _ _ click => pointer_click P click
  | KeyPress _ _ => true
  end.

(** The targets of the [tap] events of a run, in order. *)
Definition taps (r : Heap * list (list Effect)) : list EventTarget :=
  dispatched_on "tap" (concat (snd r)).

(** Whether a number is finite: a zero or a finite value other than 0. *)
Definition is_number (x : spec_float) : bool :=
  match x with
  | S754_zero _ | S754_finite _ _ _ => true
  | _ => false
  end.

(** Whether a number has sign [s]; NaN has none. *)
Definition has_sign (s : bool) (x : spec_float) : bool :=
  match x with
  | S754_zero s' | S754_infinity s' | S754_finite s' _ _ => Bool.eqb s s'
  | S754_nan => false
  end.

(** The value of a finite number, in units of 2^-1074, the least positive
    number. *)
Definition scaled (x : spec_float) : Z :=
  match x with
  | S754_finite s m e => cond_Zopp s (Z.pos m * 2 ^ (e + 1074))
  | _ => 0%Z
  end.

(** The lane [hitTest] tries for a position: the value of its [index]
    before the tests. *)
Definition tried_lane (t : Track.Track) (mousePixel : float) : float :=
  Track.floor
    (mousePixel
     / (Track.trackSize t / Track.of_Z (Z.of_nat (Track.laneCount t)))).

(** [getContentStart(index) <= mousePixel && mousePixel <
    getContentEnd(index)] *)
Definition inside_content (t : Track.Track) (index mousePixel : float)
  : bool :=
  (Track.getContentStart t index <=? mousePixel)%float
  && (mousePixel <? Track.getContentEnd t index)%float.


(** ** A small page, for concrete runs

    Targets 1 to 7 are HTML elements, 8 is the document, 9 the window.
    Targets 1 and 3 carry [role=button]; 3 is a native [<button>]. The
    page cancels every [tap] it receives, and nothing else. *)
Definition page : Platform :=
  {| nodeType := fun t =>
       if t <? 8 then Some 1%Z else if t =? 8 then Some 9%Z else None;
     isHTMLElement := fun t => t <? 8;
     matches := fun t selector =>
       if String.eqb selector "[role=button]" then (t =? 1) || (t =? 3)
       else if String.eqb selector
                 "button,a,input[type=button],input[type=submit]"
       then t =? 3
       else false;
     isIE := false;
     defaultPrevented := fun _ ev => String.eqb (tap_type ev) "tap" |}.

Definition origin : Positions :=
  {| pageX := 0%Q; pageY := 0%Q; screenX := 0%Q; screenY := 0%Q;
     clientX := 0%Q; clientY := 0%Q |}.

Definition no_keys : MetaKeys :=
  {| altKey := false; ctrlKey := false; metaKey := false; shiftKey := false |}.

(** A mouse event on the innermost target of [path], with the given
    [detail]. *)
Definition mouse_at (path : list EventTarget) (detail : Z) : MouseEvent :=
  {| m_target := path !! 0; m_path := path; m_positions := origin;
     m_metaKeys := no_keys; m_detail := detail; m_isPointerEvent := false |}.

(** A touch event with one changed touch [id] on the innermost target of
    [path]. *)
Definition touch_at (path : list EventTarget) (id : Z) : TouchEvent :=
  {| changedTouches := [ {| identifier := id; t_positions := origin |} ];
     te_path := path |}.

Definition all_flags : Flags :=
  {| onTap := true; onTapEnd := true; onTapStart := true |}.

Definition fresh_heap : Heap :=
  {| closure := initial_closure; shared := initial_module |}.

(** [globalThis] before any installation. *)
Definition fresh_global : Global :=
  {| properties := ∅; installations := [] |}.

(** * Theorems *)

(** ** Auxiliary facts *)

Lemma dispatched_on_app type effs1 effs2 :
  dispatched_on type (effs1 ++ effs2) =
  dispatched_on type effs1 ++ dispatched_on type effs2.
Proof.
  induction effs1 as [|e effs1 IH]; simpl; [done|].
  destruct e; [|done|done].
  destruct (String.eqb (tap_type ev) type); simpl; by rewrite IH.
Qed.

Lemma find_seq_first (f : nat -> bool) (a n : nat) :
  match List.find f (seq a n) with
  | Some i => a <= i < a + n ∧ f i = true ∧ ∀ j, a <= j < i -> f j = false
  | None => ∀ j, a <= j < a + n -> f j = false
  end.
Proof.
  revert a. induction n as [|n IH]; intros a; simpl.
  - intros j Hj. lia.
  - destruct (f a) eqn:Hfa.
    + split; [lia|]. split; [done|]. intros j Hj. lia.
    + specialize (IH (S a)). destruct (List.find f (seq (S a) n)) as [i|].
      * destruct IH as (Hi & Hfi & Hmin). split; [lia|]. split; [done|].
        intros j Hj. destruct (decide (j = a)) as [->|Hne]; [done|].
        apply Hmin. lia.
      * intros j Hj. destruct (decide (j = a)) as [->|Hne]; [done|].
        apply IH. lia.
Qed.

Lemma reconcile_mouse_drop stored path :
  let n := length stored `min` length path in
  reconcile_mouse stored path =
  (drop (length stored - n) stored, drop (length path - n) path).
Proof.
  unfold reconcile_mouse, splice0. simpl.
  destruct (length stored <? length path) eqn:H1.
  - apply Nat.ltb_lt in H1.
    replace (length stored `min` length path) with (length stored) by lia.
    by rewrite Nat.sub_diag, drop_0.
  - apply Nat.ltb_ge in H1. destruct (length path <? length stored) eqn:H2.
    + apply Nat.ltb_lt in H2.
      replace (length stored `min` length path) with (length path) by lia.
      by rewrite Nat.sub_diag, drop_0.
    + apply Nat.ltb_ge in H2.
      replace (length stored `min` length path) with (length path) by lia.
      replace (length stored - length path) with 0 by lia.
      by rewrite Nat.sub_diag, !drop_0.
Qed.

Lemma reconcile_mouse_length stored path :
  length (fst (reconcile_mouse stored path)) = length stored `min` length path ∧
  length (snd (reconcile_mouse stored path)) = length stored `min` length path.
Proof.
  rewrite reconcile_mouse_drop. simpl. rewrite !length_drop. lia.
Qed.

Lemma shared_element_at_true P s p i :
  shared_element_at P s p i = true <->
  ∃ t, s !! i = Some t ∧ p !! i = Some t ∧ is_element_node P t = true.
Proof.
  unfold shared_element_at. split.
  - destruct (s !! i) as [a|]; [|done]. destruct (p !! i) as [b|]; [|done].
    intros [Hab Hel]%andb_prop. apply Nat.eqb_eq in Hab. subst b.
    by exists a.
  - intros (t & -> & -> & Hel). by rewrite Hel, Nat.eqb_refl.
Qed.

(** The effects of [on_mouseup] when no suppression is pending and [tap]
    is enabled, split into the [tapend] part and the [tap] part. *)
Lemma on_mouseup_tap_effects P fl event h :
  lastTapTarget (closure h) = None ->
  onTap fl = true ->
  dispatched_on "tap" (effects (on_mouseup P fl event h)) =
  let '(s, p) := reconcile_mouse (mouseEventPath (closure h)) (m_path event) in
  match closest_shared_index P s p with
  | Some i => match s !! i with Some t => [t] | None => [] end
  | None => []
  end.
Proof.
  intros Hlast Htap. unfold on_mouseup, bind, read. simpl.
  rewrite Hlast, Htap. simpl.
  destruct (m_path event !! 0) as [t0|]; [destruct (onTapEnd fl)|]; simpl.
  1: destruct (defaultPrevented P t0 _); simpl.
  all: destruct (reconcile_mouse _ _) as [s p]; simpl.
  all: destruct (closest_shared_index P s p) as [i|]; simpl; [|done].
  all: destruct (s !! i) as [t|]; simpl; [|done].
  all: destruct (defaultPrevented P t _); simpl; done.
Qed.

(** ** C1: the target of the mouse [tap] *)

(** C1, as amended. On [mouseup] with no suppression pending and [tap]
    enabled, the stored mousedown path and the mouseup path are each cut
    down to their last [n] entries, [n] being the shorter length: the
    entries removed are the innermost ones, so the two sequences end at the
    same root. The aligned sequences are then walked from index 0, the
    innermost entry kept, towards the root, the last entry excluded. [tap]
    is dispatched once, on the entry at the first index where both
    sequences hold the same target and that target is an element node; when
    there is no such index, no [tap] is dispatched. *)
Theorem mouseup_tap_target P fl event h :
  lastTapTarget (closure h) = None ->
  onTap fl = true ->
  let stored := mouseEventPath (closure h) in
  let path := m_path event in
  let n := length stored `min` length path in
  let s := drop (length stored - n) stored in
  let p := drop (length path - n) path in
  let taps := dispatched_on "tap" (effects (on_mouseup P fl event h)) in
  reconcile_mouse stored path = (s, p) ∧
  ((∃ i t, i + 1 < n ∧ s !! i = Some t ∧ p !! i = Some t ∧
           is_element_node P t = true ∧
           (∀ j u, j < i -> s !! j = Some u -> p !! j = Some u ->
                   is_element_node P u = false) ∧
           taps = [t])
   ∨ ((∀ i u, i + 1 < n -> s !! i = Some u -> p !! i = Some u ->
              is_element_node P u = false) ∧
      taps = [])).
Proof.
  intros Hlast Htap stored path n s p taps.
  assert (Hrec : reconcile_mouse stored path = (s, p))
    by apply reconcile_mouse_drop.
  split; [done|].
  assert (Hlen : length s = n).
  { pose proof (reconcile_mouse_length stored path) as [H _].
    by rewrite Hrec in H. }
  subst taps. rewrite on_mouseup_tap_effects by done.
  fold stored path. rewrite Hrec. unfold closest_shared_index.
  pose proof (find_seq_first (shared_element_at P s p) 0 (length s - 1)) as Hf.
  destruct (List.find _ _) as [i|].
  - destruct Hf as (Hi & Hfi & Hmin).
    apply shared_element_at_true in Hfi as (t & Hs & Hp & Hel).
    left. exists i, t. rewrite Hs. repeat split; try done; [lia|].
    intros j u Hj Hsj Hpj.
    destruct (is_element_node P u) eqn:Hu; [|done].
    rewrite <- (Hmin j) by lia. symmetry.
    apply shared_element_at_true. by exists u.
  - right. split; [|done]. intros i u Hi Hs Hp.
    destruct (is_element_node P u) eqn:Hu; [|done].
    rewrite <- (Hf i) by lia. symmetry.
    apply shared_element_at_true. by exists u.
Qed.

(** A mousedown and a mouseup on the same element of the small page: the
    hypotheses hold, and [tap] goes to the innermost shared element. *)
Lemma mouseup_tap_target_witness :
  let h := heap (on_mousedown page all_flags (mouse_at [1; 2; 8; 9] 1)
                              fresh_heap) in
  lastTapTarget (closure h) = None ∧
  dispatched_on "tap"
    (effects (on_mouseup page all_flags (mouse_at [1; 2; 8; 9] 1) h)) = [1].
Proof.
  split; [reflexivity|].
  destruct (mouseup_tap_target page all_flags (mouse_at [1; 2; 8; 9] 1)
              (heap (on_mousedown page all_flags (mouse_at [1; 2; 8; 9] 1)
                                  fresh_heap))
              eq_refl eq_refl) as [_ _].
  vm_compute. reflexivity.
Defined.

(** C1, as stated, fails: with identical mousedown and mouseup paths
    [1; 2; 8; 9] (two nested elements, the document, the window) the
    listener dispatches [tap] on the innermost element 1, whereas the
    walk "from the outermost index inward" reaches element 2 first. *)
Lemma mouseup_tap_target_not_outermost :
  let h := heap (on_mousedown page all_flags (mouse_at [1; 2; 8; 9] 1)
                              fresh_heap) in
  let taps :=
    dispatched_on "tap"
      (effects (on_mouseup page all_flags (mouse_at [1; 2; 8; 9] 1) h)) in
  lastTapTarget (closure h) = None ∧
  taps = [1] ∧
  spec_tap_target page (mouseEventPath (closure h)) [1; 2; 8; 9] = Some 2 ∧
  taps ≠ option_list
           (spec_tap_target page (mouseEventPath (closure h)) [1; 2; 8; 9]).
Proof.
  vm_compute. repeat split; discriminate.
Qed.

(** ** C4: the two reconciliations *)

(** C4, as amended. Both reconciliations cut the current path down to its
    last entries when the stored path is shorter, removing the innermost
    entries, and they agree on the current path. They differ on the stored
    path: the mouse tracker cuts it down too when it is the longer one,
    the touch tracker never changes it. *)
Theorem reconcile_touch_vs_mouse (stored path : list EventTarget) :
  reconcile_touch stored path =
    (stored, drop (length path - length stored) path) ∧
  reconcile_mouse stored path =
    (drop (length stored - length path) stored,
     drop (length path - length stored) path).
Proof.
  split.
  - unfold reconcile_touch, splice0.
    destruct (length stored <? length path) eqn:H; [done|].
    apply Nat.ltb_ge in H.
    replace (length path - length stored) with 0 by lia. by rewrite drop_0.
  - rewrite reconcile_mouse_drop. simpl. f_equal; f_equal; lia.
Qed.

(** C4, as stated, fails: for a stored path longer than the current one the
    mouse reconciliation shortens the stored path and the touch
    reconciliation leaves the two sequences with different lengths. *)
Lemma reconcile_touch_differs_from_mouse :
  reconcile_touch [1; 2; 8; 9] [8; 9] = ([1; 2; 8; 9], [8; 9]) ∧
  reconcile_mouse [1; 2; 8; 9] [8; 9] = ([8; 9], [8; 9]) ∧
  reconcile_touch [1; 2; 8; 9] [8; 9] ≠ reconcile_mouse [1; 2; 8; 9] [8; 9] ∧
  length (fst (reconcile_touch [1; 2; 8; 9] [8; 9])) ≠
  length (snd (reconcile_touch [1; 2; 8; 9] [8; 9])).
Proof.
  vm_compute. repeat split; discriminate.
Qed.

(** ** C2: at most one tap per activation *)

(** Symbolic execution of a listener: unfold the monad and split on every
    condition the listener tests. *)
Ltac run_listener :=
  repeat (cbv beta iota delta
            [bind ret throw read write read_module write_module perform when
             try_finally dispatchTapOnTarget] in *;
          simpl in *; try done; case_match);
  simpl in *; try done.

Ltac unfold_listeners :=
  unfold on_mousedown, on_mouseup, on_touchstart, on_touchmove, on_touchend,
    on_click, on_keyup, onEnterOrSpacebar.

Lemma on_touchstart_no_tap P fl event h :
  dispatched_on "tap" (effects (on_touchstart P fl event h)) = [].
Proof.
  unfold on_touchstart. run_listener.
Qed.

Lemma on_touchend_tap P fl event h :
  dispatched_on "tap" (effects (on_touchend P fl event h)) ≠ [] ->
  ∃ t, dispatched_on "tap" (effects (on_touchend P fl event h)) = [t] ∧
       lastTapTarget (closure (heap (on_touchend P fl event h))) = Some t.
Proof.
  unfold on_touchend. run_listener; eauto.
Qed.

Lemma on_mousedown_suppressed P fl event h t :
  lastTapTarget (closure h) = Some t ->
  on_mousedown P fl event h =
  {| completion := Normal tt; heap := h; effects := [] |}.
Proof.
  intros Hlast. unfold on_mousedown, bind, read. simpl. by rewrite Hlast.
Qed.

Lemma on_mouseup_suppressed P fl event h t :
  lastTapTarget (closure h) = Some t ->
  on_mouseup P fl event h =
  {| completion := Normal tt;
     heap := {| closure := set_lastTapTarget None (closure h);
                shared := shared h |};
     effects := [] |}.
Proof.
  intros Hlast. unfold on_mouseup, bind, read. simpl. by rewrite Hlast.
Qed.

Lemma listener_at_most_one_tap P fl ev h :
  length (dispatched_on "tap" (effects (listener P fl ev h))) <= 1.
Proof.
  destruct ev; simpl;
    unfold on_mousedown, on_mouseup, on_touchstart, on_touchmove, on_touchend,
      on_click, on_keyup, onEnterOrSpacebar;
    run_listener; lia.
Qed.

Lemma run_cons P fl ev rest h :
  snd (run P fl (ev :: rest) h) =
  effects (listener P fl ev h)
  :: snd (run P fl rest (heap (listener P fl ev h))).
Proof. simpl. by destruct (run P fl rest _). Qed.

Lemma listener_no_tap P fl ev h :
  can_tap ev = false ->
  dispatched_on "tap" (effects (listener P fl ev h)) = [].
Proof.
  destruct ev; try done; intros _; simpl; unfold_listeners; run_listener.
Qed.

Lemma taps_cons P fl ev rest h :
  taps (run P fl (ev :: rest) h) =
  dispatched_on "tap" (effects (listener P fl ev h))
  ++ taps (run P fl rest (heap (listener P fl ev h))).
Proof.
  unfold taps. rewrite run_cons. cbn [concat]. apply dispatched_on_app.
Qed.

Lemma taps_nil P fl h : taps (run P fl [] h) = [].
Proof. done. Qed.

(** Touchmoves dispatch no [tap]: they only change the state the next
    events start from. *)
Lemma taps_moves P fl moves rest h :
  ∃ h', taps (run P fl (map Touchmove moves ++ rest) h)
        = taps (run P fl rest h').
Proof.
  revert h. induction moves as [|move moves IH]; intros h; [by exists h|].
  cbn [map app]. rewrite taps_cons, listener_no_tap by done.
  apply IH.
Qed.

(** The click listener ignores a click that comes from a pointer. *)
Lemma on_click_from_pointer P fl click h :
  pointer_click P click = true ->
  on_click P fl click h =
  {| completion := Normal tt; heap := h; effects := [] |}.
Proof.
  unfold pointer_click, on_click, isButtonEnterOrSpace.
  destruct (isIE P && m_isPointerEvent click); [done|].
  rewrite orb_false_r. intros Hdetail%Z.ltb_lt.
  assert (H : (m_detail click =? 0)%Z = false) by (apply Z.eqb_neq; lia).
  by rewrite H.
Qed.

(** The taps of a touchend and of the mouse events and the click after
    it, from any state: at most one, and exactly one when the touchend
    dispatches one. *)
Lemma taps_after_touch P fl finish down up click h :
  pointer_click P click = true ->
  let r := on_touchend P fl finish h in
  length (taps (run P fl [Touchend finish; Mousedown down; Mouseup up;
                          ClickEvent click] h)) <= 1 ∧
  (dispatched_on "tap" (effects r) ≠ [] ->
   length (taps (run P fl [Touchend finish; Mousedown down; Mouseup up;
                           ClickEvent click] h)) = 1).
Proof.
  intros Hclick r. rewrite !taps_cons, taps_nil. cbn [listener].
  fold r. rewrite (on_click_from_pointer _ _ _ _ Hclick). cbn [effects app].
  change (dispatched_on "tap" []) with (@nil EventTarget).
  rewrite !app_nil_r.
  destruct (decide (dispatched_on "tap" (effects r) = [])) as [Hnone | Hfires].
  - rewrite Hnone. cbn [app].
    pose proof (listener_no_tap P fl (Mousedown down) (heap r) eq_refl) as Hd.
    cbn [listener] in Hd. rewrite Hd. cbn [app].
    split; [|done].
    apply (listener_at_most_one_tap P fl (Mouseup up)).
  - destruct (on_touchend_tap P fl finish h Hfires) as (t & Htap & Hflag).
    fold r in Htap, Hflag. clearbody r.
    rewrite (on_mousedown_suppressed P fl down (heap r) t Hflag).
    cbn [heap effects].
    rewrite (on_mouseup_suppressed P fl up (heap r) t Hflag).
    cbn [effects]. rewrite Htap. simpl. split; [lia|done].
Qed.

(** C2. One physical activation yields at most one [tap], whichever
    channel it comes through and whatever state the installation is in:
    the native events of a touch tap, of a mouse click or of a key press
    (the click of the first two coming from a pointer) together dispatch
    at most one [tap]. In particular, whenever a touchstart followed by a
    touchend dispatches a touch [tap]: that [tap] is the only one of the
    touchend and the suppression flag [lastTapTarget] is set to its
    target; the next mousedown does nothing at all; the next mouseup
    dispatches nothing and clears the flag; the four events together
    yield exactly one [tap], and so do the five events with the click of
    the touch. Besides, no listener dispatches more than one [tap] for
    one native event. *)
Theorem one_tap_per_activation P fl :
  (∀ a h, clicks_from_pointer P a = true ->
          length (taps (run P fl (native_events a) h)) <= 1) ∧
  (∀ h start finish down up click,
     let h1 := heap (on_touchstart P fl start h) in
     let r2 := on_touchend P fl finish h1 in
     let r3 := on_mousedown P fl down (heap r2) in
     let r4 := on_mouseup P fl up (heap r3) in
     dispatched_on "tap" (effects r2) ≠ [] ->
     (∃ t, dispatched_on "tap" (effects r2) = [t] ∧
           lastTapTarget (closure (heap r2)) = Some t) ∧
     (completion r3 = Normal tt ∧ effects r3 = [] ∧ heap r3 = heap r2) ∧
     (completion r4 = Normal tt ∧ effects r4 = [] ∧
      closure (heap r4) = set_lastTapTarget None (closure (heap r2))) ∧
     length (dispatched_on "tap"
               (concat (snd (run P fl [Touchstart start; Touchend finish;
                                       Mousedown down; Mouseup up] h)))) = 1 ∧
     (pointer_click P click = true ->
      length (taps (run P fl (native_events
                                (TouchTap start [] finish down up click)) h))
      = 1)) ∧
  (∀ ev h, length (dispatched_on "tap" (effects (listener P fl ev h))) <= 1).
Proof.
  split; [|split].
  - intros [start moves finish down up click | down up click | keyup click] h
      Hclick; cbn [native_events clicks_from_pointer] in *.
    + rewrite taps_cons, listener_no_tap by done. cbn [app].
      destruct (taps_moves P fl moves
                  [Touchend finish; Mousedown down; Mouseup up;
                   ClickEvent click]
                  (heap (listener P fl (Touchstart start) h))) as [h' ->].
      by apply taps_after_touch.
    + rewrite !taps_cons, taps_nil. cbn [listener].
      rewrite (on_click_from_pointer _ _ _ _ Hclick). cbn [effects].
      change (dispatched_on "tap" []) with (@nil EventTarget).
      rewrite !app_nil_r.
      pose proof (listener_no_tap P fl (Mousedown down) h eq_refl) as Hd.
      cbn [listener] in Hd. rewrite Hd. cbn [app].
      apply (listener_at_most_one_tap P fl (Mouseup up)).
    + rewrite !taps_cons, taps_nil, listener_no_tap by done.
      rewrite app_nil_r. cbn [app].
      apply (listener_at_most_one_tap P fl (ClickEvent click)).
  - intros h start finish down up click h1 r2 r3 r4 Hfires.
    destruct (on_touchend_tap P fl finish h1 Hfires) as (t & Htap & Hflag).
    fold r2 in Htap, Hflag.
    assert (Hfive : pointer_click P click = true ->
              length (taps (run P fl (native_events
                        (TouchTap start [] finish down up click)) h)) = 1).
    { intros Hclick. cbn [native_events map app].
      rewrite taps_cons, listener_no_tap by done. cbn [app listener].
      by apply taps_after_touch. }
    assert (Hrun : snd (run P fl [Touchstart start; Touchend finish;
                                  Mousedown down; Mouseup up] h) =
                   [effects (on_touchstart P fl start h); effects r2;
                    effects r3; effects r4]) by reflexivity.
    rewrite Hrun. clear Hrun. clearbody r2.
    assert (H3 : r3 = {| completion := Normal tt; heap := heap r2;
                         effects := [] |})
      by (by apply on_mousedown_suppressed with t).
    assert (H4 : r4 = {| completion := Normal tt;
                         heap := {| closure := set_lastTapTarget None
                                                 (closure (heap r2));
                                    shared := shared (heap r2) |};
                         effects := [] |}).
    { subst r4. rewrite H3. by apply on_mouseup_suppressed with t. }
    clearbody r3 r4. subst r3 r4.
    split; [by exists t|].
    split; [done|].
    split; [done|].
    split; [|done].
    cbn [concat effects app].
    rewrite !dispatched_on_app, on_touchstart_no_tap, Htap. done.
  - intros. apply listener_at_most_one_tap.
Qed.

(** A touch tap on element 1 of the small page with the mouse events and
    the click the browser adds: one [tap]; a mouse click on the same
    element and a press of Enter on it: at most one [tap] each. *)
Lemma one_tap_per_activation_witness :
  length (taps (run page all_flags
                  (native_events
                     (TouchTap (touch_at [1; 2; 8; 9] 7) []
                               (touch_at [1; 2; 8; 9] 7)
                               (mouse_at [1; 2; 8; 9] 1)
                               (mouse_at [1; 2; 8; 9] 1)
                               (mouse_at [1; 2; 8; 9] 1)))
                  fresh_heap)) = 1 ∧
  length (taps (run page all_flags
                  (native_events
                     (MouseClick (mouse_at [1; 2; 8; 9] 1)
                                 (mouse_at [1; 2; 8; 9] 1)
                                 (mouse_at [1; 2; 8; 9] 1)))
                  fresh_heap)) <= 1 ∧
  length (taps (run page all_flags
                  (native_events
                     (KeyPress {| key := "Enter"; k_path := [1; 2; 8; 9] |}
                               (mouse_at [1; 2; 8; 9] 0)))
                  fresh_heap)) <= 1.
Proof.
  split; [|split].
  - apply (proj1 (proj2 (one_tap_per_activation page all_flags))
             fresh_heap (touch_at [1; 2; 8; 9] 7) (touch_at [1; 2; 8; 9] 7)
             (mouse_at [1; 2; 8; 9] 1) (mouse_at [1; 2; 8; 9] 1)
             (mouse_at [1; 2; 8; 9] 1)).
    + vm_compute. discriminate.
    + reflexivity.
  - apply (proj1 (one_tap_per_activation page all_flags)
             (MouseClick (mouse_at [1; 2; 8; 9] 1) (mouse_at [1; 2; 8; 9] 1)
                         (mouse_at [1; 2; 8; 9] 1))).
    reflexivity.
  - apply (proj1 (one_tap_per_activation page all_flags)
             (KeyPress {| key := "Enter"; k_path := [1; 2; 8; 9] |}
                       (mouse_at [1; 2; 8; 9] 0))).
    reflexivity.
Defined.

(** ** C3: cancellation of the native event *)

(** C3, as amended. Whenever a listener dispatches a synthetic event and
    the page prevents its default: [preventDefault()] is called on the
    native event, within the same listener run, exactly when the listener
    handed the native event itself to [dispatchTapOnTarget], that is for
    [mousedown], [mouseup] and [click]. The touch listeners hand over a
    [Touch], which is not an [Event], and never call [preventDefault()]
    on the native [touchstart] or [touchend]. *)
Theorem cancellation_reaches_native_event P fl ev h target tapEvent :
  In (DispatchEvent target tapEvent) (effects (listener P fl ev h)) ->
  defaultPrevented P target tapEvent = true ->
  native_prevented (effects (listener P fl ev h)) = passes_event_as_info ev.
Proof.
  destruct ev; simpl;
    unfold on_mousedown, on_mouseup, on_touchstart, on_touchmove, on_touchend,
      on_click, on_keyup, onEnterOrSpacebar;
    run_listener; intros; rewrite ?andb_true_r, ?andb_false_r in *;
    intuition (simplify_eq; congruence).
Qed.

(** A mousedown and a mouseup on element 1 of the small page, which
    cancels the [tap]: [preventDefault()] is called on the mouseup. *)
Lemma cancellation_reaches_native_event_witness :
  let ev := Mouseup (mouse_at [1; 2; 8; 9] 1) in
  let h := heap (on_mousedown page all_flags (mouse_at [1; 2; 8; 9] 1)
                              fresh_heap) in
  let tapEvent :=
    new_TapEvent "tap" {| positions := Some origin;
                          metaKeys := Some no_keys |} in
  In (DispatchEvent 1 tapEvent) (effects (listener page all_flags ev h)) ∧
  defaultPrevented page 1 tapEvent = true ∧
  native_prevented (effects (listener page all_flags ev h)) = true.
Proof.
  intros ev h tapEvent.
  assert (Hin : In (DispatchEvent 1 tapEvent)
                   (effects (listener page all_flags ev h)))
    by (vm_compute; right; left; reflexivity).
  assert (Hprev : defaultPrevented page 1 tapEvent = true) by reflexivity.
  split; [exact Hin|]. split; [exact Hprev|].
  exact (cancellation_reaches_native_event page all_flags ev h 1 tapEvent
           Hin Hprev).
Defined.

(** C3, as stated, fails on the touch channel: the page cancels the [tap]
    dispatched by a touchend, and [preventDefault()] is not called on the
    touchend. *)
Lemma touch_tap_cancellation_stays_synthetic :
  let h := heap (on_touchstart page all_flags (touch_at [1; 2; 8; 9] 7)
                               fresh_heap) in
  let effs := effects (on_touchend page all_flags (touch_at [1; 2; 8; 9] 7) h) in
  let tapEvent :=
    new_TapEvent "tap" {| positions := Some origin; metaKeys := None |} in
  In (DispatchEvent 1 tapEvent) effs ∧
  defaultPrevented page 1 tapEvent = true ∧
  native_prevented effs = false.
Proof.
  vm_compute. split; [right; left; reflexivity|]. split; reflexivity.
Qed.

(** ** C5: cleanup on touchend *)

(** C5, as amended. For every touchend event, on every exit path,
    [currentTouch] is -1 when the listener ends. The fault is not absorbed:
    when [changedTouches] is empty and the reconciled path has an innermost
    target, the listener dispatches nothing and ends by raising the
    [TypeError], after the cleanup; in every other case it returns
    normally. *)
Theorem touchend_resets_currentTouch P fl event h :
  let r := on_touchend P fl event h in
  currentTouch (closure (heap r)) = (-1)%Z ∧
  match changedTouches event !! 0,
        snd (reconcile_touch (touchEventPath (closure h)) (te_path event)) !! 0
  with
  | None, Some _ => (∃ e, completion r = Throw e) ∧ effects r = []
  | _, _ => completion r = Normal tt
  end.
Proof.
  unfold on_touchend. run_listener; eauto.
Qed.

(** C5, as stated, fails: a touchend with no changed touch, after a
    touchstart on element 1, resets [currentTouch] but ends with an
    exception that leaves the listener. *)
Lemma touchend_exception_escapes :
  let h := heap (on_touchstart page all_flags (touch_at [1; 2; 8; 9] 7)
                               fresh_heap) in
  let r := on_touchend page all_flags
             {| changedTouches := []; te_path := [1; 2; 8; 9] |} h in
  currentTouch (closure h) = 7%Z ∧
  currentTouch (closure (heap r)) = (-1)%Z ∧
  completion r = Throw (TypeError "pageX") ∧
  completion r ≠ Normal tt.
Proof.
  vm_compute. repeat split; discriminate.
Qed.

(** ** C6: a touchmove cancels the tap *)

(** A touchstart, a touchmove and a touchend on the same element, the
    ending touch having an identifier other than -1: [tapstart] and
    [tapend] are dispatched on the element, and no [tap]. *)
Lemma touchmove_cancels_tap P fl h start move finish touch touch' a rest :
  onTapStart fl = true ->
  onTapEnd fl = true ->
  changedTouches start !! 0 = Some touch ->
  changedTouches finish !! 0 = Some touch' ->
  identifier touch' ≠ (-1)%Z ->
  te_path start = a :: rest ->
  te_path finish = a :: rest ->
  let effs := concat (snd (run P fl [Touchstart start; Touchmove move;
                                     Touchend finish] h)) in
  dispatched_types effs = ["tapstart"; "tapend"] ∧
  dispatched_on "tapstart" effs = [a] ∧
  dispatched_on "tapend" effs = [a] ∧
  dispatched_on "tap" effs = [].
Proof.
  intros Hs He Hst Hfi Hid Hp Hp'.
  assert (Hne : (identifier touch' =? -1)%Z = false) by by apply Z.eqb_neq.
  simpl. unfold on_touchstart, on_touchmove, on_touchend, reconcile_touch.
  cbv beta iota delta [bind read write]. simpl.
  rewrite Hst, Hfi, Hp, Hp', Hs, He. simpl.
  rewrite !andb_false_r. simpl.
  rewrite Nat.ltb_irrefl. simpl. rewrite !andb_false_r. simpl.
  rewrite Hne. done.
Qed.

(** C6 on the touch identifier -1, the value [currentTouch] takes when no
    touch is tracked: the touchmove leaves [currentTouch] equal to the
    identifier of the ending touch, and [tap] is dispatched. *)
Theorem touchmove_does_not_cancel_touch_minus_one :
  let evs := [Touchstart (touch_at [1; 2; 8; 9] (-1));
              Touchmove (touch_at [1; 2; 8; 9] (-1));
              Touchend (touch_at [1; 2; 8; 9] (-1))] in
  let effs := concat (snd (run page all_flags evs fresh_heap)) in
  dispatched_types effs = ["tapstart"; "tapend"; "tap"] ∧
  dispatched_on "tap" effs = [1].
Proof.
  vm_compute. split; reflexivity.
Qed.

(** ** C9: the click listener dispatches without checking its target *)

Lemma closest_shared_index_lookup P s p i :
  closest_shared_index P s p = Some i -> ∃ t, s !! i = Some t.
Proof.
  unfold closest_shared_index. intros Hfind.
  apply List.find_some in Hfind as [_ Hat].
  apply shared_element_at_true in Hat as (t & Hs & _). by exists t.
Qed.

Lemma on_mouseup_has_target P fl event h :
  completion (on_mouseup P fl event h) = Normal tt.
Proof.
  unfold on_mouseup. run_listener.
  all: match goal with
       | H : closest_shared_index _ _ _ = Some _ |- _ =>
           apply closest_shared_index_lookup in H as [? ?]; congruence
       end.
Qed.

(** C9. A click recognised as keyboard-originated ([detail] 0, not a
    pointer event of the legacy engine) whose composed path is empty makes
    the click listener, when [tap] is enabled, call [dispatchTapOnTarget]
    with no target: nothing is dispatched and the call raises at
    [target.dispatchEvent]. The mousedown, mouseup, touchstart and touchend
    listeners never get there: on every event and in every state they
    dispatch only on a path entry they have found to exist. *)
Theorem click_dispatches_on_missing_target P fl event h :
  m_detail event = 0%Z ->
  isIE P && m_isPointerEvent event = false ->
  m_path event = [] ->
  onTap fl = true ->
  on_click P fl event h =
    dispatchTapOnTarget P "tap" None (Some (InfoMouse event)) h ∧
  completion (on_click P fl event h) = Throw (TypeError "dispatchEvent") ∧
  effects (on_click P fl event h) = [] ∧
  (∀ e h', completion (on_mousedown P fl e h')
           ≠ Throw (TypeError "dispatchEvent")) ∧
  (∀ e h', completion (on_mouseup P fl e h')
           ≠ Throw (TypeError "dispatchEvent")) ∧
  (∀ e h', completion (on_touchstart P fl e h')
           ≠ Throw (TypeError "dispatchEvent")) ∧
  (∀ e h', completion (on_touchend P fl e h')
           ≠ Throw (TypeError "dispatchEvent")).
Proof.
  intros Hdetail Hie Hpath Htap.
  assert (Hclick : on_click P fl event h =
            dispatchTapOnTarget P "tap" None (Some (InfoMouse event)) h).
  { unfold on_click, isButtonEnterOrSpace.
    by rewrite Hie, Hdetail, Hpath, Htap. }
  split; [done|]. rewrite Hclick.
  split; [done|]. split; [done|].
  split; [|split; [|split]]; intros e h'.
  - unfold on_mousedown. run_listener.
  - by rewrite on_mouseup_has_target.
  - unfold on_touchstart. run_listener; by simplify_eq.
  - unfold on_touchend. run_listener; by simplify_eq.
Qed.

(** A keyboard click with an empty composed path on the small page. *)
Lemma click_dispatches_on_missing_target_witness :
  m_detail (mouse_at [] 0) = 0%Z ∧
  isIE page && m_isPointerEvent (mouse_at [] 0) = false ∧
  m_path (mouse_at [] 0) = [] ∧
  onTap all_flags = true ∧
  completion (on_click page all_flags (mouse_at [] 0) fresh_heap)
  = Throw (TypeError "dispatchEvent").
Proof.
  repeat (split; [reflexivity|]).
  apply (click_dispatches_on_missing_target page all_flags (mouse_at [] 0)
           fresh_heap eq_refl eq_refl eq_refl eq_refl).
Defined.

(** ** C8: keyboard activation *)

(** C8. On a keyup of Enter or Space (reported as [" "] or ["Spacebar"])
    whose innermost path target is [t], the listener returns normally and
    leaves the state as it is. If [t] is an HTML element that matches
    [[role=button]] and matches none of [button], [a],
    [input[type=button]], [input[type=submit]], it calls
    [preventDefault()] on the key event and then [t.click()]; otherwise,
    in particular for a natively activatable [t], it does neither. The
    click that [t.click()] produces has [detail] 0 and [t] as innermost
    path target: unless it is a pointer event of the legacy engine, the
    click listener of an installation with [tap] enabled answers it with
    exactly one [tap], dispatched on [t]. *)
Theorem keyup_activates_role_button P fl event h t :
  key event = "Enter" ∨ key event = " " ∨ key event = "Spacebar" ->
  k_path event !! 0 = Some t ->
  let r := on_keyup P event h in
  completion r = Normal tt ∧
  heap r = h ∧
  effects r =
    (if isHTMLElement P t && matches P t "[role=button]"
        && negb (matches P t "button,a,input[type=button],input[type=submit]")
     then [PreventDefault; Click t]
     else []) ∧
  (∀ click h',
     m_detail click = 0%Z ->
     isIE P && m_isPointerEvent click = false ->
     m_path click !! 0 = Some t ->
     onTap fl = true ->
     completion (on_click P fl click h') = Normal tt ∧
     dispatched_types (effects (on_click P fl click h')) = ["tap"] ∧
     dispatched_on "tap" (effects (on_click P fl click h')) = [t]).
Proof.
  intros Hkey Hpath r.
  assert (Hr : r = onEnterOrSpacebar P event h).
  { subst r. unfold on_keyup.
    destruct Hkey as [-> | [-> | ->]]; reflexivity. }
  rewrite Hr. unfold onEnterOrSpacebar. rewrite Hpath.
  split; [|split; [|split]].
  - by destruct (_ && _).
  - by destruct (_ && _).
  - by destruct (_ && _).
  - intros click h' Hdetail Hie Hclick Htap.
    unfold on_click, isButtonEnterOrSpace.
    rewrite Hie, Hdetail, Hclick, Htap. simpl.
    by destruct (defaultPrevented P t _).
Qed.

(** Enter on element 1 of the small page, a [div] with [role=button]. *)
Lemma keyup_activates_role_button_witness :
  let event := {| key := "Enter"; k_path := [1; 2; 8; 9] |} in
  (key event = "Enter" ∨ key event = " " ∨ key event = "Spacebar") ∧
  k_path event !! 0 = Some 1 ∧
  effects (on_keyup page event fresh_heap) = [PreventDefault; Click 1] ∧
  dispatched_on "tap"
    (effects (on_click page all_flags (mouse_at [1; 2; 8; 9] 0) fresh_heap))
  = [1].
Proof.
  intros event.
  pose proof (keyup_activates_role_button page all_flags event fresh_heap 1
                (or_introl eq_refl) eq_refl) as (_ & _ & Heffects & Hclick).
  split; [by left|]. split; [reflexivity|]. split; [exact Heffects|].
  apply (Hclick (mouse_at [1; 2; 8; 9] 0) fresh_heap); reflexivity.
Defined.

(** ** C7: installing twice *)

Lemma applyEvent_claims (g : Global) :
  has_property "ontap" (applyEvent g) = true ∧
  has_property "ontapstart" (applyEvent g) = true ∧
  has_property "ontapend" (applyEvent g) = true.
Proof.
  unfold applyEvent.
  destruct (has_property "ontap" g) eqn:H1;
    destruct (has_property "ontapend" g) eqn:H2;
    destruct (has_property "ontapstart" g) eqn:H3; simpl;
    unfold has_property in *; simpl; by simplify_map_eq.
Qed.

Lemma applyEvent_twice (g : Global) :
  applyEvent (applyEvent g) = applyEvent g.
Proof.
  destruct (applyEvent_claims g) as (H1 & H2 & H3).
  unfold applyEvent at 1. by rewrite H1, H2, H3.
Qed.

Lemma listener_respects_flags P fl ev h target tapEvent :
  In (DispatchEvent target tapEvent) (effects (listener P fl ev h)) ->
  enabled fl (tap_type tapEvent) = true.
Proof.
  destruct ev; simpl;
    unfold on_mousedown, on_mouseup, on_touchstart, on_touchmove, on_touchend,
      on_click, on_keyup, onEnterOrSpacebar, enabled;
    run_listener; intros; intuition (simplify_eq; try done).
  all: by destruct (onTap fl).
Qed.

Lemma on_mousedown_stores_path P fl event h a :
  lastTapTarget (closure h) = None ->
  currentTouch (closure h) = (-1)%Z ->
  m_target event = Some a ->
  closure (heap (on_mousedown P fl event h)) =
    set_mouseEventPath (m_path event) (closure h) ∧
  dispatched_on "tap" (effects (on_mousedown P fl event h)) = [].
Proof.
  intros Hlast Hcur Htarget. unfold on_mousedown.
  cbv beta iota delta [bind read write]. simpl.
  rewrite Hlast, Hcur, Htarget. simpl. run_listener.
Qed.

Lemma on_mouseup_same_path P fl event h a b rest :
  lastTapTarget (closure h) = None ->
  onTap fl = true ->
  mouseEventPath (closure h) = a :: b :: rest ->
  m_path event = a :: b :: rest ->
  is_element_node P a = true ->
  dispatched_on "tap" (effects (on_mouseup P fl event h)) = [a].
Proof.
  intros Hlast Htap Hstored Hpath Hel.
  rewrite on_mouseup_tap_effects by done. rewrite Hstored, Hpath.
  unfold reconcile_mouse. rewrite Nat.ltb_irrefl.
  unfold closest_shared_index, shared_element_at. simpl.
  by rewrite Nat.eqb_refl, Hel.
Qed.

(** C7. An installation that finds at least one of [ontap], [ontapstart],
    [ontapend] missing registers one set of listeners and sets all three
    properties to [null]; after any installation all three are present, so
    installing again changes nothing. A set of listeners only dispatches
    the event types whose property was missing when it was installed. On a
    target that had no [ontap] and no listeners, after two installations, a
    mousedown and a mouseup on the same element yield exactly one [tap]. *)
Theorem install_twice_one_tap (g : Global) P :
  (has_property "ontap" g && has_property "ontapend" g
     && has_property "ontapstart" g = false ->
   properties (applyEvent g) !! "ontap" = Some JsNull ∧
   properties (applyEvent g) !! "ontapstart" = Some JsNull ∧
   properties (applyEvent g) !! "ontapend" = Some JsNull ∧
   installations (applyEvent g) =
     installations g ++
     [ {| flags := {| onTap := negb (has_property "ontap" g);
                      onTapEnd := negb (has_property "ontapend" g);
                      onTapStart := negb (has_property "ontapstart" g) |};
          vars := initial_closure |} ]) ∧
  (has_property "ontap" (applyEvent g) = true ∧
   has_property "ontapstart" (applyEvent g) = true ∧
   has_property "ontapend" (applyEvent g) = true) ∧
  applyEvent (applyEvent g) = applyEvent g ∧
  (∀ fl ev h target tapEvent,
     In (DispatchEvent target tapEvent) (effects (listener P fl ev h)) ->
     enabled fl (tap_type tapEvent) = true) ∧
  (∀ down up a b rest mv,
     installations g = [] ->
     has_property "ontap" g = false ->
     m_target down = Some a ->
     m_path down = a :: b :: rest ->
     m_path up = a :: b :: rest ->
     is_element_node P a = true ->
     dispatched_on "tap"
       (deliver_all P [Mousedown down; Mouseup up]
          (installations (applyEvent (applyEvent g))) mv) = [a]).
Proof.
  split; [|split; [|split; [|split]]].
  - intros Hmissing. unfold applyEvent.
    destruct (has_property "ontap" g) eqn:H1;
      destruct (has_property "ontapend" g) eqn:H2;
      destruct (has_property "ontapstart" g) eqn:H3; try done;
      simpl; by simplify_map_eq.
  - apply applyEvent_claims.
  - apply applyEvent_twice.
  - intros fl ev h. apply listener_respects_flags.
  - intros down up a b rest mv Hnone Htap Htarget Hdown Hup Hel.
    rewrite applyEvent_twice. unfold applyEvent. rewrite Htap, Hnone.
    cbn [negb andb app installations deliver_all deliver listener flags vars].
    rewrite !app_nil_r, dispatched_on_app.
    set (h0 := {| closure := initial_closure; shared := mv |}).
    destruct (on_mousedown_stores_path P
                {| onTap := true;
                   onTapEnd := negb (has_property "ontapend" g);
                   onTapStart := negb (has_property "ontapstart" g) |}
                down h0 a eq_refl eq_refl Htarget) as [Hclosure Hnotap].
    rewrite Hnotap, Hclosure. cbn [app].
    by apply on_mouseup_same_path with b rest.
Qed.

(** Two installations on a fresh [globalThis], then a mouse tap on
    element 1 of the small page. *)
Lemma install_twice_one_tap_witness :
  installations fresh_global = [] ∧
  has_property "ontap" fresh_global = false ∧
  is_element_node page 1 = true ∧
  length (installations (applyEvent (applyEvent fresh_global))) = 1 ∧
  dispatched_on "tap"
    (deliver_all page [Mousedown (mouse_at [1; 2; 8; 9] 1);
                       Mouseup (mouse_at [1; 2; 8; 9] 1)]
       (installations (applyEvent (applyEvent fresh_global)))
       initial_module) = [1].
Proof.
  pose proof (install_twice_one_tap fresh_global page)
    as (_ & _ & _ & _ & Hone).
  repeat (split; [reflexivity|]).
  apply (Hone (mouse_at [1; 2; 8; 9] 1) (mouse_at [1; 2; 8; 9] 1) 1 2 [8; 9]);
    reflexivity.
Defined.

(** ** C10: hit-testing a track *)

(** *** Facts on binary64 numbers *)

Module FloatFacts.

Lemma SFcompare_refl x : x ≠ S754_nan -> SFcompare x x = Some Eq.
Proof.
  destruct x as [s | s | | s m e]; simpl; try done; [by destruct s|].
  intros _. rewrite Z.compare_refl, Pos.compare_cont_refl. by destruct s.
Qed.

Lemma is_nan_spec x : is_nan x = true <-> Prim2SF x = S754_nan.
Proof.
  unfold is_nan. rewrite eqb_spec. unfold SFeqb. split.
  - destruct (Prim2SF x) eqn:E; try done; rewrite SFcompare_refl; done.
  - intros ->. done.
Qed.

Lemma is_nan_false x : is_nan x = false <-> Prim2SF x ≠ S754_nan.
Proof.
  rewrite <- is_nan_spec. by destruct (is_nan x).
Qed.

Lemma SFcompare_antisym x y :
  SFcompare y x = CompOpp <$> SFcompare x y.
Proof.
  destruct x as [sx | sx | | sx mx ex], y as [sy | sy | | sy my ey]; simpl;
    try done; try (by destruct sx); try (by destruct sy);
    try (by destruct sx, sy).
  rewrite (Z.compare_antisym ey ex).
  rewrite (ZC4 my mx).
  destruct sx, sy; try done; destruct (ey ?= ex)%Z; simpl; try done;
    by rewrite ?CompOpp_involutive.
Qed.

Lemma SFcompare_nan x y :
  SFcompare x y = None <-> x = S754_nan ∨ y = S754_nan.
Proof.
  destruct x as [sx | sx | | sx mx ex], y as [sy | sy | | sy my ey]; simpl;
    split; try done; try (intros [?|?]; done); try tauto.
Qed.

Lemma ltb_false_leb x y :
  is_nan x = false -> is_nan y = false ->
  (x <? y)%float = false -> (y <=? x)%float = true.
Proof.
  rewrite !is_nan_false, ltb_spec, leb_spec. unfold SFltb, SFleb.
  intros Hx Hy. rewrite (SFcompare_antisym (Prim2SF x) (Prim2SF y)).
  destruct (SFcompare (Prim2SF x) (Prim2SF y)) as [[]|] eqn:E; simpl; try done.
  apply SFcompare_nan in E. tauto.
Qed.

Lemma leb_false_ltb x y :
  is_nan x = false -> is_nan y = false ->
  (y <=? x)%float = false -> (x <? y)%float = true.
Proof.
  rewrite !is_nan_false, ltb_spec, leb_spec. unfold SFltb, SFleb.
  intros Hx Hy. rewrite (SFcompare_antisym (Prim2SF x) (Prim2SF y)).
  destruct (SFcompare (Prim2SF x) (Prim2SF y)) as [[]|] eqn:E; simpl; try done.
  apply SFcompare_nan in E. tauto.
Qed.

Lemma leb_not_ltb x y : (x <=? y)%float = true -> (y <? x)%float = false.
Proof.
  rewrite ltb_spec, leb_spec. unfold SFltb, SFleb.
  rewrite (SFcompare_antisym (Prim2SF x) (Prim2SF y)).
  by destruct (SFcompare (Prim2SF x) (Prim2SF y)) as [[]|].
Qed.

Lemma ltb_leb x y : (x <? y)%float = true -> (x <=? y)%float = true.
Proof.
  rewrite ltb_spec, leb_spec. unfold SFltb, SFleb.
  by destruct (SFcompare (Prim2SF x) (Prim2SF y)) as [[]|].
Qed.

Lemma leb_not_nan x y :
  (x <=? y)%float = true -> is_nan x = false ∧ is_nan y = false.
Proof.
  rewrite !is_nan_false, leb_spec. unfold SFleb.
  destruct (SFcompare (Prim2SF x) (Prim2SF y)) eqn:E; [|done].
  intros _. split; intros H; rewrite H in E; [done|].
  by destruct (Prim2SF x).
Qed.

Lemma ltb_not_nan x y :
  (x <? y)%float = true -> is_nan x = false ∧ is_nan y = false.
Proof. intros H%ltb_leb. by apply leb_not_nan. Qed.

Lemma digits2_bounds p :
  (2 ^ (Z.pos (digits2_pos p) - 1) <= Z.pos p < 2 ^ Z.pos (digits2_pos p))%Z.
Proof.
  induction p as [p IH | p IH |]; simpl digits2_pos; [| |simpl; lia].
  - rewrite Pos2Z.inj_succ, (Pos2Z.inj_xI p).
    replace (Z.succ (Z.pos (digits2_pos p)) - 1)%Z
      with (Z.succ (Z.pos (digits2_pos p) - 1)) by lia.
    rewrite !Z.pow_succ_r by lia.
    destruct IH as [IH1 IH2]. revert IH1 IH2.
    generalize (2 ^ (Z.pos (digits2_pos p) - 1))%Z.
    generalize (2 ^ Z.pos (digits2_pos p))%Z. lia.
  - rewrite Pos2Z.inj_succ, (Pos2Z.inj_xO p).
    replace (Z.succ (Z.pos (digits2_pos p)) - 1)%Z
      with (Z.succ (Z.pos (digits2_pos p) - 1)) by lia.
    rewrite !Z.pow_succ_r by lia.
    destruct IH as [IH1 IH2]. revert IH1 IH2.
    generalize (2 ^ (Z.pos (digits2_pos p) - 1))%Z.
    generalize (2 ^ Z.pos (digits2_pos p))%Z. lia.
Qed.

Lemma digits2_le p (d : Z) :
  (0 <= d)%Z -> (Z.pos p < 2 ^ d)%Z -> (Z.pos (digits2_pos p) <= d)%Z.
Proof.
  intros Hd Hp. pose proof (digits2_bounds p) as [Hlow _].
  assert (H : (2 ^ (Z.pos (digits2_pos p) - 1) < 2 ^ d)%Z) by lia.
  apply Z.pow_lt_mono_r_iff in H; lia.
Qed.

Lemma valid_finite s m e :
  valid_binary (S754_finite s m e) = true ->
  (-1074 <= e <= 971)%Z ∧ (Z.pos (digits2_pos m) <= 53)%Z ∧
  (-1074 < e -> Z.pos (digits2_pos m) = 53)%Z.
Proof.
  unfold valid_binary, bounded, canonical_mantissa, fexp, emin, prec, emax.
  intros [H1 H2]%andb_prop. apply Z.eqb_eq in H1. apply Z.leb_le in H2. lia.
Qed.

Lemma pow2_pos (k : Z) : (0 <= k)%Z -> (0 < 2 ^ k)%Z.
Proof. intros. by apply Z.pow_pos_nonneg. Qed.

Lemma mul_compare_mono_r (c a b : Z) :
  (0 < c)%Z -> (a * c ?= b * c)%Z = (a ?= b)%Z.
Proof.
  intros Hc. destruct (Z.compare_spec a b) as [-> | Hlt | Hgt].
  - apply Z.compare_refl.
  - apply Z.compare_lt_iff. nia.
  - apply Z.compare_gt_iff. nia.
Qed.

(** Two positive finite numbers compare as their exponents and then
    their mantissas do. *)
Lemma magnitude_compare m1 e1 m2 e2 :
  valid_binary (S754_finite false m1 e1) = true ->
  valid_binary (S754_finite false m2 e2) = true ->
  match (e1 ?= e2)%Z with
  | Lt => Lt
  | Gt => Gt
  | Eq => Pos.compare_cont Eq m1 m2
  end = (Z.pos m1 * 2 ^ (e1 + 1074) ?= Z.pos m2 * 2 ^ (e2 + 1074))%Z.
Proof.
  intros (He1 & Hd1 & Hn1)%valid_finite (He2 & Hd2 & Hn2)%valid_finite.
  pose proof (digits2_bounds m1) as Hb1.
  pose proof (digits2_bounds m2) as Hb2.
  destruct (Z.compare_spec e1 e2) as [-> | Hlt | Hgt].
  - symmetry. rewrite mul_compare_mono_r by (apply pow2_pos; lia). done.
  - symmetry. apply Z.compare_lt_iff.
    rewrite Hn2 in Hb2 by lia.
    assert (Hm1 : (Z.pos m1 < 2 ^ 53)%Z).
    { eapply Z.lt_le_trans; [apply Hb1|]. apply Z.pow_le_mono_r; lia. }
    replace (e2 + 1074)%Z with ((e1 + 1074) + (e2 - e1))%Z by lia.
    rewrite (Z.pow_add_r 2 (e1 + 1074) (e2 - e1)) by lia.
    assert (Hp : (0 < 2 ^ (e1 + 1074))%Z) by (apply pow2_pos; lia).
    assert (Hq : (2 ^ 1 <= 2 ^ (e2 - e1))%Z) by (apply Z.pow_le_mono_r; lia).
    change (2 ^ (53 - 1))%Z with 4503599627370496%Z in Hb2.
    change (2 ^ 53)%Z with 9007199254740992%Z in Hm1.
    change (2 ^ 1)%Z with 2%Z in Hq.
    revert Hp Hq. generalize (2 ^ (e1 + 1074))%Z, (2 ^ (e2 - e1))%Z.
    intros a q Ha Hq.
    assert (Z.pos m1 * a < 9007199254740992 * a)%Z by nia.
    assert (9007199254740992 * a <= Z.pos m2 * a * 2)%Z by nia.
    assert (Z.pos m2 * a * 2 <= Z.pos m2 * a * q)%Z
      by (apply Z.mul_le_mono_nonneg_l; lia).
    lia.
  - symmetry. apply Z.compare_gt_iff.
    rewrite Hn1 in Hb1 by lia.
    assert (Hm2 : (Z.pos m2 < 2 ^ 53)%Z).
    { eapply Z.lt_le_trans; [apply Hb2|]. apply Z.pow_le_mono_r; lia. }
    replace (e1 + 1074)%Z with ((e2 + 1074) + (e1 - e2))%Z by lia.
    rewrite (Z.pow_add_r 2 (e2 + 1074) (e1 - e2)) by lia.
    assert (Hp : (0 < 2 ^ (e2 + 1074))%Z) by (apply pow2_pos; lia).
    assert (Hq : (2 ^ 1 <= 2 ^ (e1 - e2))%Z) by (apply Z.pow_le_mono_r; lia).
    change (2 ^ (53 - 1))%Z with 4503599627370496%Z in Hb1.
    change (2 ^ 53)%Z with 9007199254740992%Z in Hm2.
    change (2 ^ 1)%Z with 2%Z in Hq.
    revert Hp Hq. generalize (2 ^ (e2 + 1074))%Z, (2 ^ (e1 - e2))%Z.
    intros a q Ha Hq.
    assert (Z.pos m2 * a < 9007199254740992 * a)%Z by nia.
    assert (9007199254740992 * a <= Z.pos m1 * a * 2)%Z by nia.
    assert (Z.pos m1 * a * 2 <= Z.pos m1 * a * q)%Z
      by (apply Z.mul_le_mono_nonneg_l; lia).
    lia.
Qed.

Lemma SFcompare_scaled x y :
  valid_binary x = true -> valid_binary y = true ->
  is_number x = true -> is_number y = true ->
  SFcompare x y = Some (scaled x ?= scaled y)%Z.
Proof.
  destruct x as [sx | sx | | sx mx ex], y as [sy | sy | | sy my ey];
    try done; intros Hx Hy _ _.
  - pose proof (valid_finite _ _ _ Hy) as (He & _).
    assert (0 < Z.pos my * 2 ^ (ey + 1074))%Z
      by (apply Z.mul_pos_pos; [done|apply pow2_pos; lia]).
    destruct sy; cbv beta iota delta [SFcompare scaled cond_Zopp];
      f_equal; symmetry;
      [apply Z.compare_gt_iff | apply Z.compare_lt_iff]; lia.
  - pose proof (valid_finite _ _ _ Hx) as (He & _).
    assert (0 < Z.pos mx * 2 ^ (ex + 1074))%Z
      by (apply Z.mul_pos_pos; [done|apply pow2_pos; lia]).
    destruct sx; cbv beta iota delta [SFcompare scaled cond_Zopp];
      f_equal; symmetry;
      [apply Z.compare_lt_iff | apply Z.compare_gt_iff]; lia.
  - pose proof (valid_finite _ _ _ Hx) as (Hex & _).
    pose proof (valid_finite _ _ _ Hy) as (Hey & _).
    assert (Hpx : (0 < Z.pos mx * 2 ^ (ex + 1074))%Z)
      by (apply Z.mul_pos_pos; [done|apply pow2_pos; lia]).
    assert (Hpy : (0 < Z.pos my * 2 ^ (ey + 1074))%Z)
      by (apply Z.mul_pos_pos; [done|apply pow2_pos; lia]).
    pose proof (magnitude_compare mx ex my ey Hx Hy) as Hmag.
    destruct sx, sy; cbv beta iota delta [SFcompare scaled cond_Zopp];
      f_equal.
    + rewrite Z.compare_opp, (Z.compare_antisym _ (Z.pos my * _)%Z), <- Hmag.
      by destruct (ex ?= ey)%Z.
    + symmetry. apply Z.compare_lt_iff. lia.
    + symmetry. apply Z.compare_gt_iff. lia.
    + done.
Qed.

Lemma iter_xO m k :
  Z.pos (Pos.iter xO m k) = (Z.pos m * 2 ^ Z.pos k)%Z ∧
  Z.pos (digits2_pos (Pos.iter xO m k)) = (Z.pos (digits2_pos m) + Z.pos k)%Z.
Proof.
  induction k as [|k IH] using Pos.peano_ind.
  - simpl. split; lia.
  - rewrite Pos.iter_succ. simpl digits2_pos.
    rewrite Pos2Z.inj_xO, !Pos2Z.inj_succ, Z.pow_succ_r by lia.
    destruct IH as [-> ->]. split; lia.
Qed.

Lemma binary_round_aux_exact s m e :
  Z.pos (digits2_pos m) = 53%Z -> (-1074 <= e <= 971)%Z ->
  binary_round_aux prec emax s (Z.pos m) e loc_Exact = S754_finite s m e.
Proof.
  intros Hd He.
  assert (Hshr : shr_fexp prec emax (Z.pos m) e loc_Exact =
                 ({| shr_m := Z.pos m; shr_r := false; shr_s := false |}, e)).
  { unfold shr_fexp, fexp, emin, Zdigits2. rewrite Hd.
    replace (Z.max (53 + e - prec) (3 - emax - prec) - e)%Z with 0%Z
      by (unfold prec, emax; lia).
    done. }
  unfold binary_round_aux. rewrite Hshr. simpl. rewrite Hshr. simpl.
  assert (Hle : (e <=? emax - prec)%Z = true)
    by (apply Z.leb_le; unfold prec, emax; lia).
  by rewrite Hle.
Qed.

(** A positive integer of at most 53 bits is a number, exactly. *)
Lemma binary_normalize_exact s p :
  (Z.pos (digits2_pos p) <= 53)%Z ->
  ∃ m e, binary_round prec emax s p 0 = S754_finite s m e ∧
         (-52 <= e <= 0)%Z ∧ Z.pos m = (Z.pos p * 2 ^ (- e))%Z.
Proof.
  intros Hd. unfold binary_round, shl_align, fexp, emin.
  rewrite Z.add_0_r, Z.sub_0_r.
  assert (Hpos : (0 < Z.pos (digits2_pos p))%Z) by lia.
  replace (Z.max (Z.pos (digits2_pos p) - prec) (3 - emax - prec))%Z
    with (Z.pos (digits2_pos p) - 53)%Z by (unfold prec, emax; lia).
  destruct (Z.pos (digits2_pos p) - 53)%Z as [|k|k] eqn:Hk; [|lia|].
  - exists p, 0%Z. rewrite binary_round_aux_exact by lia.
    split; [done|]. split; [lia|]. simpl. lia.
  - destruct (iter_xO p k) as [Hval Hdig].
    exists (Pos.iter xO p k), (Z.neg k).
    rewrite binary_round_aux_exact by lia.
    split; [done|]. split; [lia|]. by rewrite Hval.
Qed.

Lemma to_Z_of_Z (z : Z) :
  (0 <= z < 2 ^ 53)%Z -> Uint63.to_Z (Uint63.of_Z z) = z.
Proof.
  intros Hz. rewrite Uint63.of_Z_spec. apply Z.mod_small.
  change (2 ^ 53)%Z with 9007199254740992%Z in Hz.
  change Uint63.wB with 9223372036854775808%Z. lia.
Qed.

Lemma Prim2SF_of_Z_pos p :
  (Z.pos p < 2 ^ 53)%Z ->
  ∃ m e, Prim2SF (Track.of_Z (Z.pos p)) = S754_finite false m e ∧
         (-52 <= e <= 0)%Z ∧ Z.pos m = (Z.pos p * 2 ^ (- e))%Z.
Proof.
  intros Hp. unfold Track.of_Z. change (Z.pos p <? 0)%Z with false. cbv iota.
  rewrite of_uint63_spec, to_Z_of_Z by lia. cbv beta iota delta [binary_normalize].
  apply binary_normalize_exact, digits2_le; [lia|done].
Qed.

Lemma Prim2SF_of_Z_neg p :
  (Z.pos p < 2 ^ 53)%Z ->
  ∃ m e, Prim2SF (Track.of_Z (Z.neg p)) = S754_finite true m e.
Proof.
  intros Hp. unfold Track.of_Z. change (Z.neg p <? 0)%Z with true. cbv iota.
  change (- Z.neg p)%Z with (Z.pos p).
  rewrite opp_spec, of_uint63_spec, to_Z_of_Z by lia.
  cbv beta iota delta [binary_normalize].
  destruct (binary_normalize_exact false p) as (m & e & -> & _).
  { apply digits2_le; [lia|done]. }
  by exists m, e.
Qed.

Lemma of_Z_0 : Track.of_Z 0 = 0%float.
Proof. vm_compute. reflexivity. Qed.

(** An integer from 0 to 2^53 is a number that denotes itself as an
    index. *)
Lemma array_index_of_Z (z : Z) :
  (0 <= z < 2 ^ 53)%Z -> Track.array_index (Track.of_Z z) = Some z.
Proof.
  intros Hz. destruct z as [|p|p]; [by vm_compute| |lia].
  destruct (Prim2SF_of_Z_pos p) as (m & e & Hsf & He & Hm); [lia|].
  unfold Track.array_index. rewrite Hsf.
  destruct (Z.leb_spec 0 e) as [Hnn | Hneg].
  - replace e with 0%Z in * by lia. simpl in Hm. f_equal. simpl. lia.
  - assert (Hpow : (0 < 2 ^ (- e))%Z) by (apply pow2_pos; lia).
    rewrite Hm, Z.mod_mul by lia. simpl Z.eqb. cbv iota.
    by rewrite Z.div_mul by lia.
Qed.

Lemma of_Z_negative (z : Z) :
  (- 2 ^ 53 < z < 0)%Z -> (0 <=? Track.of_Z z)%float = false.
Proof.
  intros Hz. destruct z as [|p|p]; [lia|lia|].
  destruct (Prim2SF_of_Z_neg p) as (m & e & Hsf); [lia|].
  rewrite leb_spec, Hsf. by vm_compute.
Qed.

(** A number that denotes an index has the value of that index. *)
Lemma array_index_scaled (x : float) (i : Z) :
  Track.array_index x = Some i ->
  is_number (Prim2SF x) = true ∧
  scaled (Prim2SF x) = (i * 2 ^ 1074)%Z ∧ (0 <= i)%Z.
Proof.
  unfold Track.array_index. pose proof (Prim2SF_valid x) as Hvalid.
  destruct (Prim2SF x) as [s | s | | s m e]; try done.
  - intros [= <-]. done.
  - destruct s; [done|].
    pose proof (valid_finite _ _ _ Hvalid) as (He & _).
    unfold scaled, cond_Zopp.
    destruct (Z.leb_spec 0 e) as [Hnn | Hneg].
    + intros [= <-]. split; [done|].
      rewrite (Z.pow_add_r 2 e 1074) by lia. split; [ring|].
      pose proof (pow2_pos e Hnn). lia.
    + destruct (Z.eqb_spec (Z.pos m mod 2 ^ (- e)) 0) as [Hmod | ]; [|done].
      intros [= <-]. split; [done|].
      assert (Hpow : (0 < 2 ^ (- e))%Z) by (apply pow2_pos; lia).
      apply Z.div_exact in Hmod; [|lia].
      split.
      * rewrite Hmod at 1.
        replace 1074%Z with (- e + (e + 1074))%Z at 2 by lia.
        rewrite (Z.pow_add_r 2 (- e) (e + 1074)) by lia. ring.
      * apply Z.div_pos; lia.
Qed.

Lemma ltb_index (x y : float) (i j : Z) :
  Track.array_index x = Some i -> Track.array_index y = Some j ->
  (x <? y)%float = (i <? j)%Z.
Proof.
  intros (Hnx & Hsx & _)%array_index_scaled (Hny & Hsy & _)%array_index_scaled.
  rewrite ltb_spec. unfold SFltb.
  rewrite SFcompare_scaled by (done || apply Prim2SF_valid).
  rewrite Hsx, Hsy, mul_compare_mono_r by (by apply pow2_pos).
  done.
Qed.

Lemma leb_index (x y : float) (i j : Z) :
  Track.array_index x = Some i -> Track.array_index y = Some j ->
  (x <=? y)%float = (i <=? j)%Z.
Proof.
  intros (Hnx & Hsx & _)%array_index_scaled (Hny & Hsy & _)%array_index_scaled.
  rewrite leb_spec. unfold SFleb.
  rewrite SFcompare_scaled by (done || apply Prim2SF_valid).
  rewrite Hsx, Hsy, mul_compare_mono_r by (by apply pow2_pos).
  unfold Z.leb. by destruct (i ?= j)%Z.
Qed.

End FloatFacts.

(** *** Facts on the track *)

Module TrackFacts.
Import Track FloatFacts.

Lemma Prim2SF_0 : Prim2SF 0 = S754_zero false.
Proof. reflexivity. Qed.

(** A number in a range is finite. *)
Lemma range_number (x y : float) :
  (0 <=? x)%float = true -> (x <? y)%float = true ->
  is_number (Prim2SF x) = true.
Proof.
  rewrite leb_spec, ltb_spec, Prim2SF_0.
  destruct (Prim2SF x) as [s | s | | s m e]; try done.
  destruct s; [done|]. intros _. by destruct (Prim2SF y) as [| [] | |].
Qed.

Lemma floor_not_number (q : float) :
  is_number (Prim2SF q) = false -> floor q = q.
Proof. unfold floor. by destruct (Prim2SF q). Qed.

Lemma finite_mantissa s m e :
  valid_binary (S754_finite s m e) = true -> (Z.pos m < 2 ^ 53)%Z.
Proof.
  intros (_ & Hd & _)%valid_finite.
  eapply Z.lt_le_trans; [apply digits2_bounds|].
  apply Z.pow_le_mono_r; lia.
Qed.

(** [Math.floor] gives an integer: within a range from 0 on, a number
    that denotes an index. *)
Lemma floor_index (q y : float) :
  (0 <=? floor q)%float = true -> (floor q <? y)%float = true ->
  ∃ i, array_index (floor q) = Some i.
Proof.
  intros Hge Hlt. pose proof (range_number _ _ Hge Hlt) as Hnum.
  pose proof (Prim2SF_valid q) as Hvalid.
  unfold floor in *.
  destruct (Prim2SF q) as [s | s | | s m e] eqn:Hq.
  - exists 0%Z. unfold array_index. by rewrite Hq.
  - by rewrite Hq in Hnum.
  - by rewrite Hq in Hnum.
  - pose proof (finite_mantissa _ _ _ Hvalid) as Hm.
    pose proof (valid_finite _ _ _ Hvalid) as (He & _).
    destruct (Z.leb_spec 0 e) as [Hnn | Hneg].
    + rewrite leb_spec, Prim2SF_0, Hq in Hge.
      destruct s; [done|].
      eexists. unfold array_index. rewrite Hq.
      apply Z.leb_le in Hnn. by rewrite Hnn.
    + assert (Hpow : (1 <= 2 ^ (- e))%Z).
      { pose proof (pow2_pos (- e)). lia. }
      destruct s.
      * rewrite of_Z_negative in Hge; [done|].
        assert (Z.neg m / 2 ^ (- e) < 0)%Z
          by (apply Z.div_lt_upper_bound; lia).
        assert (Z.neg m <= Z.neg m / 2 ^ (- e))%Z
          by (apply Z.div_le_lower_bound; nia).
        lia.
      * exists (Z.pos m / 2 ^ (- e))%Z. apply array_index_of_Z.
        split; [apply Z.div_pos; lia|].
        apply Z.div_lt_upper_bound; [lia|]. nia.
Qed.

Lemma floor_nan (q : float) : is_nan (floor q) = false -> is_nan q = false.
Proof.
  destruct (is_nan q) eqn:Hq; [|done].
  rewrite floor_not_number; [by rewrite Hq|].
  apply is_nan_spec in Hq. by rewrite Hq.
Qed.

Lemma div_nan (x y : float) : is_nan (x / y) = false -> is_nan x = false.
Proof.
  rewrite !is_nan_false, div_spec. intros H Hx. apply H.
  rewrite Hx. done.
Qed.




(** The result of [hitTest], case by case. *)
Lemma hitTest_cases (t : Track) (mousePixel : float) :
  let index := tried_lane t mousePixel in
  hitTest t mousePixel = (-1)%float ∨
  hitTest t mousePixel = index ∧
  (0 <=? index)%float = true ∧
  (index <? of_Z (Z.of_nat (laneCount t)))%float = true ∧
  (∃ i, array_index index = Some i ∧ (0 <= i)%Z ∧
        ((Z.of_nat (laneCount t) < 2 ^ 32)%Z ->
         (i < Z.of_nat (laneCount t))%Z)) ∧
  (mousePixel <? getContentStart t index)%float = false ∧
  (getContentEnd t index <=? mousePixel)%float = false ∧
  (is_nan (getContentStart t index) = false ->
   is_nan (getContentEnd t index) = false ->
   inside_content t index mousePixel = true).
Proof.
  intros index. unfold hitTest. fold (tried_lane t mousePixel). fold index.
  destruct ((0 <=? index)%float) eqn:Hge; [|by left].
  destruct ((index <? of_Z (Z.of_nat (laneCount t)))%float) eqn:Hlt;
    [|by left].
  destruct ((mousePixel <? getContentStart t index)%float) eqn:Hstart;
    [by left|].
  destruct ((getContentEnd t index <=? mousePixel)%float) eqn:Hend;
    [by left|].
  right. simpl. do 3 (split; [done|]).
  assert (Hmp : is_nan mousePixel = false).
  { apply leb_not_nan in Hge as [_ Hindex].
    by apply floor_nan, div_nan in Hindex. }
  split; [|split; [done|split; [done|]]].
  - destruct (floor_index _ _ Hge Hlt) as [i Hi]. fold index in Hi.
    exists i. split; [done|].
    destruct (array_index_scaled _ _ Hi) as (_ & _ & Hnn).
    split; [done|]. intros Hcount.
    rewrite (ltb_index index _ i (Z.of_nat (laneCount t)) Hi) in Hlt.
    + by apply Z.ltb_lt.
    + apply array_index_of_Z.
      change (2 ^ 32)%Z with 4294967296%Z in Hcount.
      change (2 ^ 53)%Z with 9007199254740992%Z. lia.
  - intros Hs He. unfold inside_content.
    rewrite (ltb_false_leb _ _ Hmp Hs Hstart).
    by rewrite (leb_false_ltb _ _ Hmp He Hend).
Qed.

(** Without an index in range, [hitTest] returns -1. *)
Lemma hitTest_not_number (t : Track) (mousePixel : float) :
  is_number (Prim2SF (tried_lane t mousePixel)) = false ->
  hitTest t mousePixel = (-1)%float.
Proof.
  intros Hnum.
  destruct (hitTest_cases t mousePixel) as [H | (_ & Hge & Hlt & _)]; [done|].
  by rewrite (range_number _ _ Hge Hlt) in Hnum.
Qed.

End TrackFacts.




(** * Further properties of the listeners *)

(** ** The synthetic events of one native event *)

(** X1. The synthetic events one native event can produce: a mousedown or
    a touchstart at most one [tapstart]; a mouseup or a touchend at most
    one [tapend] and at most one [tap], the [tapend] first; a click at
    most one [tap]; a touchmove or a keyup none. *)
Theorem listener_dispatched_types P fl ev h :
  let types := dispatched_types (effects (listener P fl ev h)) in
  match ev with
  | Mousedown _ | Touchstart _ => types = [] ∨ types = ["tapstart"]
  | Mouseup _ | Touchend _ =>
      types = [] ∨ types = ["tapend"] ∨ types = ["tap"]
      ∨ types = ["tapend"; "tap"]
  | ClickEvent _ => types = [] ∨ types = ["tap"]
  | Touchmove _ | Keyup _ => types = []
  end.
Proof.
  destruct ev; simpl; unfold_listeners; run_listener; auto.
Qed.

(** X2. What a dispatched synthetic event carries: it bubbles, is composed
    and cancelable; its coordinates are those of the mouse event, or of
    the first changed touch; its modifier keys are those of the mouse
    event, and all false when it comes from a touch. *)
Theorem dispatched_event_payload P fl ev h target tapEvent :
  In (DispatchEvent target tapEvent) (effects (listener P fl ev h)) ->
  tap_bubbles tapEvent = true ∧
  tap_composed tapEvent = true ∧
  tap_cancelable tapEvent = true ∧
  native_positions ev = Some (tap_positions tapEvent) ∧
  tap_metaKeys tapEvent =
    match native_metaKeys ev with Some keys => keys | None => no_keys end.
Proof.
  destruct ev; simpl; unfold_listeners; run_listener;
    intros; intuition (simplify_eq; try done).
Qed.

(** X3. Exceptions. The mousedown, mouseup, touchmove and keyup listeners
    never raise. The touchstart listener raises exactly when
    [changedTouches] is empty, the touchend listener exactly when
    [changedTouches] is empty and the reconciled path has an innermost
    target. The click listener raises exactly when it
    takes the click for a keyboard click, [tap] is enabled and the
    composed path is empty. A listener that raises has dispatched
    nothing. *)
Theorem listener_exceptions P fl ev h :
  let r := listener P fl ev h in
  match ev with
  | Mousedown _ | Mouseup _ | Touchmove _ | Keyup _ => completion r = Normal tt
  | Touchstart e =>
      (completion r = Normal tt <-> changedTouches e ≠ [])
  | ClickEvent e =>
      (completion r = Normal tt <->
       ¬ (isButtonEnterOrSpace P e = true ∧ onTap fl = true ∧ m_path e = []))
  | Touchend e =>
      (completion r = Normal tt <->
       changedTouches e ≠ [] ∨
       snd (reconcile_touch (touchEventPath (closure h)) (te_path e)) !! 0
       = None)
  end ∧
  (completion r ≠ Normal tt -> effects r = []).
Proof.
  split.
  - destruct ev; simpl; try apply on_mouseup_has_target;
      unfold_listeners; run_listener.
    all: try (destruct (changedTouches event) eqn:?);
      try (destruct (m_path event) eqn:?);
      simpl in *; simplify_eq; intuition (try congruence; try done).
  - destruct ev; cbn [listener];
      try (intros Hraised; by rewrite on_mouseup_has_target in Hraised);
      unfold_listeners; run_listener;
      intros Hraised; try done; by destruct Hraised.
Qed.

(** ** Sequences of native events *)


(** X4. Over any sequence of native events, from any state, an
    installation dispatches no more [tap] events than the sequence has
    mouseup, touchend and click events. *)
Theorem taps_bounded_by_releases P fl evs h :
  length (dispatched_on "tap" (concat (snd (run P fl evs h))))
  <= length (filter (fun ev => can_tap ev = true) evs).
Proof.
  revert h. induction evs as [|ev rest IH]; intros h; [done|].
  rewrite run_cons. cbn [concat]. rewrite dispatched_on_app, length_app.
  specialize (IH (heap (listener P fl ev h))).
  rewrite filter_cons. destruct (decide (can_tap ev = true)) as [Hcan|Hcan].
  - pose proof (listener_at_most_one_tap P fl ev h). simpl. lia.
  - apply not_true_is_false in Hcan.
    rewrite (listener_no_tap P fl ev h Hcan). simpl. lia.
Qed.

Lemma dispatched_app effs1 effs2 :
  dispatched (effs1 ++ effs2) = dispatched effs1 ++ dispatched effs2.
Proof.
  induction effs1 as [|e effs1 IH]; simpl; [done|].
  destruct e; simpl; by rewrite ?IH.
Qed.

(** What a mousedown does when its guard lets it through. *)
Lemma on_mousedown_dispatched P fl event h a :
  lastTapTarget (closure h) = None ->
  currentTouch (closure h) = (-1)%Z ->
  m_target event = Some a ->
  closure (heap (on_mousedown P fl event h)) =
    set_mouseEventPath (m_path event) (closure h) ∧
  dispatched (effects (on_mousedown P fl event h)) =
    match m_path event !! 0 with
    | Some t => if onTapStart fl then [(t, tap_from_mouse "tapstart" event)]
                else []
    | None => []
    end.
Proof.
  intros Hlast Hcur Htarget. unfold on_mousedown.
  cbv beta iota delta [bind read write]. simpl.
  rewrite Hlast, Hcur, Htarget. simpl. run_listener.
Qed.

(** What a mouseup dispatches when no suppression is pending. *)
Lemma on_mouseup_dispatched P fl event h :
  lastTapTarget (closure h) = None ->
  dispatched (effects (on_mouseup P fl event h)) =
    match m_path event !! 0 with
    | Some t => if onTapEnd fl then [(t, tap_from_mouse "tapend" event)]
                else []
    | None => []
    end ++
    if onTap fl then
      let '(s, p) := reconcile_mouse (mouseEventPath (closure h))
                                     (m_path event) in
      match closest_shared_index P s p with
      | Some i => match s !! i with
                  | Some t => [(t, tap_from_mouse "tap" event)]
                  | None => []
                  end
      | None => []
      end
    else [].
Proof.
  intros Hlast. unfold on_mouseup, bind, read. simpl. rewrite Hlast. simpl.
  destruct (m_path event !! 0) as [t0|]; [destruct (onTapEnd fl)|]; simpl.
  1: destruct (defaultPrevented P t0 _); simpl.
  all: destruct (onTap fl); simpl; [|done].
  all: destruct (reconcile_mouse _ _) as [s p]; simpl.
  all: destruct (closest_shared_index P s p) as [i|]; simpl; [|done].
  all: destruct (s !! i) as [t|]; simpl; [|done].
  all: destruct (defaultPrevented P t _); simpl; done.
Qed.

Lemma on_click_pointer P fl event h :
  m_detail event ≠ 0%Z ->
  on_click P fl event h = {| completion := Normal tt; heap := h;
                             effects := [] |}.
Proof.
  intros Hdetail%Z.eqb_neq. unfold on_click, isButtonEnterOrSpace.
  rewrite Hdetail. by destruct (isIE P && m_isPointerEvent event).
Qed.

Lemma reconcile_mouse_same (p : list EventTarget) :
  reconcile_mouse p p = (p, p).
Proof. unfold reconcile_mouse. by rewrite Nat.ltb_irrefl. Qed.

(** X5. A mouse click on one element, with all three event types enabled,
    no suppression pending and no touch active: the mousedown, the mouseup
    and the click that follows (its [detail] is not 0) yield exactly
    [tapstart], [tapend], [tap], in that order, all on the element. The
    [tapstart] carries the coordinates and modifier keys of the mousedown,
    the [tapend] and the [tap] those of the mouseup. *)
Theorem mouse_click_single_fire P fl h down up click a b rest :
  onTap fl = true -> onTapEnd fl = true -> onTapStart fl = true ->
  lastTapTarget (closure h) = None ->
  currentTouch (closure h) = (-1)%Z ->
  m_target down = Some a ->
  m_path down = a :: b :: rest ->
  m_path up = a :: b :: rest ->
  is_element_node P a = true ->
  m_detail click ≠ 0%Z ->
  dispatched (concat (snd (run P fl [Mousedown down; Mouseup up;
                                     ClickEvent click] h))) =
  [(a, tap_from_mouse "tapstart" down);
   (a, tap_from_mouse "tapend" up);
   (a, tap_from_mouse "tap" up)].
Proof.
  intros Htap Hend Hstart Hlast Hcur Htarget Hdown Hup Hel Hdetail.
  rewrite !run_cons. cbn [run snd concat listener].
  rewrite app_nil_r, !dispatched_app.
  destruct (on_mousedown_dispatched P fl down h a Hlast Hcur Htarget)
    as [Hclosure Hd1].
  rewrite Hd1, Hdown, Hstart. cbn [lookup list_lookup].
  set (h1 := heap (on_mousedown P fl down h)) in *.
  assert (Hlast1 : lastTapTarget (closure h1) = None)
    by (by rewrite Hclosure).
  rewrite (on_mouseup_dispatched P fl up h1 Hlast1).
  rewrite Hclosure, Hdown, Hup, Hend, Htap. cbn [mouseEventPath set_mouseEventPath].
  rewrite reconcile_mouse_same.
  unfold closest_shared_index, shared_element_at. simpl.
  rewrite Nat.eqb_refl, Hel. simpl.
  by rewrite on_click_pointer.
Qed.

Lemma reconcile_mouse_elem stored path s p i t :
  reconcile_mouse stored path = (s, p) ->
  s !! i = Some t -> p !! i = Some t ->
  t ∈ stored ∧ t ∈ path.
Proof.
  rewrite reconcile_mouse_drop. intros [= <- <-].
  rewrite !lookup_drop. intros Hs Hp.
  split; eapply list_elem_of_lookup_2; eauto.
Qed.

(** X6. Pressing on one element and releasing on another: when no
    element node lies on both composed paths, the mousedown and the
    mouseup yield [tapstart] on the first innermost target and [tapend]
    on the second, and no [tap]. *)
Theorem mouse_drag_off_no_tap P fl h down up a ra b rb :
  onTap fl = true -> onTapEnd fl = true -> onTapStart fl = true ->
  lastTapTarget (closure h) = None ->
  currentTouch (closure h) = (-1)%Z ->
  m_target down = Some a ->
  m_path down = a :: ra ->
  m_path up = b :: rb ->
  (∀ t, t ∈ a :: ra -> t ∈ b :: rb -> is_element_node P t = false) ->
  dispatched (concat (snd (run P fl [Mousedown down; Mouseup up] h))) =
  [(a, tap_from_mouse "tapstart" down); (b, tap_from_mouse "tapend" up)].
Proof.
  intros Htap Hend Hstart Hlast Hcur Htarget Hdown Hup Hapart.
  rewrite !run_cons. cbn [run snd concat listener].
  rewrite app_nil_r, !dispatched_app.
  destruct (on_mousedown_dispatched P fl down h a Hlast Hcur Htarget)
    as [Hclosure Hd1].
  rewrite Hd1, Hdown, Hstart. cbn [lookup list_lookup].
  set (h1 := heap (on_mousedown P fl down h)) in *.
  assert (Hlast1 : lastTapTarget (closure h1) = None)
    by (by rewrite Hclosure).
  rewrite (on_mouseup_dispatched P fl up h1 Hlast1).
  rewrite Hclosure, Hdown, Hup, Hend, Htap.
  cbn [mouseEventPath set_mouseEventPath lookup list_lookup].
  destruct (reconcile_mouse (a :: ra) (b :: rb)) as [s p] eqn:Hrec.
  destruct (closest_shared_index P s p) as [i|] eqn:Hfind; [|done].
  unfold closest_shared_index in Hfind.
  apply List.find_some in Hfind as [_ Hat].
  apply shared_element_at_true in Hat as (t & Hs & Hp & Hel).
  destruct (reconcile_mouse_elem _ _ _ _ _ _ Hrec Hs Hp) as [Hin1 Hin2].
  by rewrite (Hapart t Hin1 Hin2) in Hel.
Qed.

(** What a touchstart with a changed touch does. *)
Lemma on_touchstart_dispatched P fl event h t :
  changedTouches event !! 0 = Some t ->
  completion (on_touchstart P fl event h) = Normal tt ∧
  closure (heap (on_touchstart P fl event h)) =
    set_touchEventPath (te_path event)
      (set_currentTouch (identifier t)
         (set_startTouch (Some t) (closure h))) ∧
  dispatched (effects (on_touchstart P fl event h)) =
    match te_path event !! 0 with
    | Some a => if onTapStart fl then [(a, tap_from_touch "tapstart" t)]
                else []
    | None => []
    end.
Proof.
  intros Htouch. unfold on_touchstart.
  cbv beta iota delta [bind read write]. simpl. rewrite Htouch. simpl.
  run_listener.
Qed.

(** What a touchend with a changed touch does. *)
Lemma on_touchend_dispatched P fl event h t :
  changedTouches event !! 0 = Some t ->
  let path := snd (reconcile_touch (touchEventPath (closure h))
                                   (te_path event)) in
  let tapped := (identifier t =? currentTouch (closure h))%Z in
  completion (on_touchend P fl event h) = Normal tt ∧
  closure (heap (on_touchend P fl event h)) =
    set_currentTouch (-1)
      match path !! 0 with
      | Some a => if tapped then set_lastTapTarget (Some a) (closure h)
                  else closure h
      | None => closure h
      end ∧
  dispatched (effects (on_touchend P fl event h)) =
    match path !! 0 with
    | Some a =>
        (if onTapEnd fl then [(a, tap_from_touch "tapend" t)] else []) ++
        (if tapped && onTap fl then [(a, tap_from_touch "tap" t)] else [])
    | None => []
    end.
Proof.
  intros Htouch path tapped. subst path tapped. unfold on_touchend.
  cbv beta iota delta [bind read write try_finally]. simpl.
  rewrite Htouch. simpl. run_listener.
Qed.

(** X7. A touch tap on one element, with all three event types enabled:
    a touchstart and a touchend of the same touch, with the same composed
    path, yield exactly [tapstart], [tapend], [tap], in that order, all on
    the innermost target, with the coordinates of the respective touch
    point and no modifier key. Afterwards the suppression flag holds the
    target and no touch is active. *)
Theorem touch_tap_single_fire P fl h start finish t1 t2 a rest :
  onTap fl = true -> onTapEnd fl = true -> onTapStart fl = true ->
  changedTouches start !! 0 = Some t1 ->
  changedTouches finish !! 0 = Some t2 ->
  identifier t2 = identifier t1 ->
  te_path start = a :: rest ->
  te_path finish = a :: rest ->
  let result := run P fl [Touchstart start; Touchend finish] h in
  dispatched (concat (snd result)) =
    [(a, tap_from_touch "tapstart" t1);
     (a, tap_from_touch "tapend" t2);
     (a, tap_from_touch "tap" t2)] ∧
  lastTapTarget (closure (fst result)) = Some a ∧
  currentTouch (closure (fst result)) = (-1)%Z.
Proof.
  intros Htap Hend Hstart H1 H2 Hid Hp1 Hp2 result.
  destruct (on_touchstart_dispatched P fl start h t1 H1)
    as (_ & Hclosure1 & Hd1).
  set (h1 := heap (on_touchstart P fl start h)) in *.
  destruct (on_touchend_dispatched P fl finish h1 t2 H2)
    as (_ & Hclosure2 & Hd2).
  assert (Hres : result = (heap (on_touchend P fl finish h1),
                           [effects (on_touchstart P fl start h);
                            effects (on_touchend P fl finish h1)]))
    by reflexivity.
  rewrite Hres. cbn [fst snd concat].
  rewrite app_nil_r, dispatched_app, Hd1, Hd2, Hclosure2, Hclosure1.
  cbn [touchEventPath set_touchEventPath currentTouch set_currentTouch].
  rewrite Hp1, Hp2, Hid, Z.eqb_refl, Htap, Hend, Hstart.
  unfold reconcile_touch. rewrite Nat.ltb_irrefl. done.
Qed.

(** X8. Pressing on one element and releasing on a sibling: when the two
    composed paths differ only in their innermost target and the parent is
    an element node (with at least one more entry above it), the [tap]
    goes to the parent. *)
Theorem mouse_drag_to_sibling_taps_parent P fl h down up a b c d rest :
  onTap fl = true -> onTapEnd fl = true -> onTapStart fl = true ->
  lastTapTarget (closure h) = None ->
  currentTouch (closure h) = (-1)%Z ->
  m_target down = Some a ->
  m_path down = a :: c :: d :: rest ->
  m_path up = b :: c :: d :: rest ->
  a ≠ b ->
  is_element_node P c = true ->
  dispatched (concat (snd (run P fl [Mousedown down; Mouseup up] h))) =
  [(a, tap_from_mouse "tapstart" down);
   (b, tap_from_mouse "tapend" up);
   (c, tap_from_mouse "tap" up)].
Proof.
  intros Htap Hend Hstart Hlast Hcur Htarget Hdown Hup Hab Hel.
  rewrite !run_cons. cbn [run snd concat listener].
  rewrite app_nil_r, !dispatched_app.
  destruct (on_mousedown_dispatched P fl down h a Hlast Hcur Htarget)
    as [Hclosure Hd1].
  rewrite Hd1, Hdown, Hstart. cbn [lookup list_lookup].
  set (h1 := heap (on_mousedown P fl down h)) in *.
  assert (Hlast1 : lastTapTarget (closure h1) = None)
    by (by rewrite Hclosure).
  rewrite (on_mouseup_dispatched P fl up h1 Hlast1).
  rewrite Hclosure, Hdown, Hup, Hend, Htap.
  cbn [mouseEventPath set_mouseEventPath].
  unfold reconcile_mouse. cbn [length]. rewrite Nat.ltb_irrefl.
  unfold closest_shared_index, shared_element_at. simpl.
  apply Nat.eqb_neq in Hab. by rewrite Hab, Nat.eqb_refl, Hel.
Qed.

Lemma on_touchend_currentTouch P fl event h :
  currentTouch (closure (heap (on_touchend P fl event h))) = (-1)%Z.
Proof. unfold on_touchend. run_listener. Qed.

Lemma on_touchend_other_touch P fl event h t :
  changedTouches event !! 0 = Some t ->
  identifier t ≠ currentTouch (closure h) ->
  dispatched_on "tap" (effects (on_touchend P fl event h)) = [].
Proof.
  intros Htouch Hid%Z.eqb_neq. unfold on_touchend.
  cbv beta iota delta [bind read write try_finally]. simpl.
  rewrite Htouch. simpl. run_listener.
Qed.

(** X9. Only one touch is tracked, and any touchend ends the tracking:
    after a touchstart of one touch, the touchend of another touch yields
    no [tap], and neither does the later touchend of the first touch
    (its identifier not being -1). *)
Theorem second_touch_cancels_tap P fl h start finish2 finish1 t1 t2 t1' :
  changedTouches start !! 0 = Some t1 ->
  changedTouches finish2 !! 0 = Some t2 ->
  changedTouches finish1 !! 0 = Some t1' ->
  identifier t2 ≠ identifier t1 ->
  identifier t1' ≠ (-1)%Z ->
  dispatched_on "tap"
    (concat (snd (run P fl [Touchstart start; Touchend finish2;
                            Touchend finish1] h))) = [].
Proof.
  intros H1 H2 H1' Hother Hid.
  rewrite !run_cons. cbn [run snd concat listener].
  rewrite app_nil_r, !dispatched_on_app, on_touchstart_no_tap.
  destruct (on_touchstart_dispatched P fl start h t1 H1)
    as (_ & Hclosure1 & _).
  set (h1 := heap (on_touchstart P fl start h)) in *.
  rewrite (on_touchend_other_touch P fl finish2 h1 t2 H2)
    by (by rewrite Hclosure1).
  rewrite (on_touchend_other_touch P fl finish1 _ t1' H1')
    by (by rewrite on_touchend_currentTouch).
  done.
Qed.

(** X10. A touchend that no touchstart has prepared (the stored touch
    path is empty, as after installation) does nothing but reset
    [currentTouch]: it dispatches nothing and does not raise, whatever
    its [changedTouches]. *)
Theorem touchend_without_touchstart P fl event h :
  touchEventPath (closure h) = [] ->
  on_touchend P fl event h =
  {| completion := Normal tt;
     heap := {| closure := set_currentTouch (-1) (closure h);
                shared := shared h |};
     effects := [] |}.
Proof.
  intros Hempty. unfold on_touchend, reconcile_touch, splice0.
  cbv beta iota delta [bind read write try_finally]. simpl.
  rewrite Hempty. simpl.
  destruct (te_path event) as [|x l]; simpl; [done|].
  by rewrite drop_all.
Qed.

(** X11. A composed path with a single entry never leads to a [tap]: when
    the stored mousedown path or the mouseup path has at most one entry
    (in particular when no mousedown was seen since installation), the
    mouseup dispatches no [tap]. *)
Theorem mouseup_short_path_no_tap P fl event h :
  length (mouseEventPath (closure h)) <= 1 ∨ length (m_path event) <= 1 ->
  dispatched_on "tap" (effects (on_mouseup P fl event h)) = [].
Proof.
  intros Hshort.
  destruct (lastTapTarget (closure h)) as [t|] eqn:Hlast.
  { by rewrite (on_mouseup_suppressed P fl event h t Hlast). }
  destruct (onTap fl) eqn:Htap.
  - rewrite on_mouseup_tap_effects by done.
    destruct (reconcile_mouse _ _) as [s p] eqn:Hrec.
    pose proof (reconcile_mouse_length (mouseEventPath (closure h))
                  (m_path event)) as [Hlen _].
    rewrite Hrec in Hlen. simpl in Hlen.
    unfold closest_shared_index.
    replace (length s - 1) with 0 by lia. done.
  - unfold on_mouseup. cbv beta iota delta [bind read]. simpl.
    rewrite Hlast, Htap. simpl. run_listener.
Qed.

(** X12. While a touch is being tracked, mouse presses are ignored: after
    a touchstart whose touch identifier is not -1, a mousedown dispatches
    nothing and leaves the state as it is. *)
Theorem mousedown_ignored_during_touch P fl h start down t :
  changedTouches start !! 0 = Some t ->
  identifier t ≠ (-1)%Z ->
  let h1 := heap (on_touchstart P fl start h) in
  on_mousedown P fl down h1 =
  {| completion := Normal tt; heap := h1; effects := [] |}.
Proof.
  intros Htouch Hid%Z.eqb_neq h1.
  destruct (on_touchstart_dispatched P fl start h t Htouch)
    as (_ & Hclosure & _).
  unfold on_mousedown. cbv beta iota delta [bind read]. simpl.
  fold h1 in Hclosure. rewrite Hclosure. simpl. rewrite Hid.
  by rewrite andb_false_r.
Qed.

(** ** Installation *)

(** X13. [applyEvent] leaves the target exactly as it is if and only if
    [ontap], [ontapend] and [ontapstart] are all present already. *)
Theorem applyEvent_noop_iff (g : Global) :
  applyEvent g = g <->
  has_property "ontap" g = true ∧ has_property "ontapend" g = true ∧
  has_property "ontapstart" g = true.
Proof.
  split.
  - intros Hsame.
    destruct (has_property "ontap" g) eqn:H1,
             (has_property "ontapend" g) eqn:H2,
             (has_property "ontapstart" g) eqn:H3; try done;
      apply (f_equal (fun x => length (installations x))) in Hsame;
      unfold applyEvent in Hsame; rewrite H1, H2, H3 in Hsame; simpl in Hsame;
      rewrite length_app in Hsame; simpl in Hsame; lia.
  - intros (H1 & H2 & H3). unfold applyEvent. by rewrite H1, H2, H3.
Qed.

(** X14. [applyEvent] touches nothing but the three properties and the
    end of the listener list: every other property keeps its value, the
    installations already made are kept, in order and with their state,
    and at most one installation is added, in its initial state. *)
Theorem applyEvent_preserves (g : Global) :
  (∀ name, name ≠ "ontap" -> name ≠ "ontapend" -> name ≠ "ontapstart" ->
           properties (applyEvent g) !! name = properties g !! name) ∧
  (installations (applyEvent g) = installations g ∨
   ∃ fl, installations (applyEvent g) =
         installations g ++ [{| flags := fl; vars := initial_closure |}]).
Proof.
  unfold applyEvent.
  destruct (negb (negb (has_property "ontap" g)) &&
            negb (negb (has_property "ontapend" g)) &&
            negb (negb (has_property "ontapstart" g))); simpl.
  - split; [done|by left].
  - split; [|right; eauto].
    intros name H1 H2 H3. by rewrite !lookup_insert_ne.
Qed.

(** ** State *)

(** X21. Which closure variables a listener can change. The mousedown
    listener changes at most the stored mouse path; the mouseup listener
    at most that path and the suppression flag, which is clear afterwards;
    the touchstart listener leaves the flag and the mouse path alone; the
    touchmove and touchend listeners leave both stored paths alone and end
    with no touch tracked; the click and keyup listeners change nothing. *)
Theorem listener_frame P fl ev h :
  let c := closure h in
  let c' := closure (heap (listener P fl ev h)) in
  match ev with
  | Mousedown _ =>
      startTouch c' = startTouch c ∧ currentTouch c' = currentTouch c ∧
      lastTapTarget c' = lastTapTarget c ∧
      touchEventPath c' = touchEventPath c
  | Mouseup _ =>
      startTouch c' = startTouch c ∧ currentTouch c' = currentTouch c ∧
      lastTapTarget c' = None ∧ touchEventPath c' = touchEventPath c
  | Touchstart _ =>
      lastTapTarget c' = lastTapTarget c ∧
      mouseEventPath c' = mouseEventPath c
  | Touchmove _ =>
      c' = set_currentTouch (-1) c
  | Touchend _ =>
      startTouch c' = startTouch c ∧ currentTouch c' = (-1)%Z ∧
      mouseEventPath c' = mouseEventPath c ∧
      touchEventPath c' = touchEventPath c
  | ClickEvent _ | Keyup _ => c' = c
  end.
Proof.
  destruct ev; simpl; unfold_listeners; run_listener.
  all: by destruct (lastTapTarget (closure h)).
Qed.

(** X22. The module-level variables [positions] and [metaKeys] carry
    nothing from one dispatch to the next: a listener started in two heaps
    with the same closure variables, whatever the module-level variables
    hold, ends the same way, performs the same effects (the same events,
    with the same payload, on the same targets) and leaves the same
    closure variables. *)
Theorem module_variables_no_crosstalk P fl ev c mv mv' :
  let r := listener P fl ev {| closure := c; shared := mv |} in
  let r' := listener P fl ev {| closure := c; shared := mv' |} in
  completion r = completion r' ∧
  effects r = effects r' ∧
  closure (heap r) = closure (heap r').
Proof.
  destruct ev; simpl; unfold_listeners; run_listener.
Qed.

(** ** Concrete runs on the small page *)

(** X2 on the [tap] of a mouse click on element 1. *)
Lemma dispatched_event_payload_witness :
  let ev := Mouseup (mouse_at [1; 2; 8; 9] 1) in
  let h := heap (on_mousedown page all_flags (mouse_at [1; 2; 8; 9] 1)
                              fresh_heap) in
  let tapEvent := tap_from_mouse "tap" (mouse_at [1; 2; 8; 9] 1) in
  In (DispatchEvent 1 tapEvent) (effects (listener page all_flags ev h)) ∧
  native_positions ev = Some (tap_positions tapEvent) ∧
  tap_cancelable tapEvent = true.
Proof.
  intros ev h tapEvent.
  assert (Hin : In (DispatchEvent 1 tapEvent)
                   (effects (listener page all_flags ev h)))
    by (vm_compute; right; left; reflexivity).
  split; [exact Hin|].
  destruct (dispatched_event_payload page all_flags ev h 1 tapEvent Hin)
    as (_ & _ & Hcancel & Hpos & _).
  by split.
Defined.

(** X5: a mouse click on element 1. *)
Lemma mouse_click_single_fire_witness :
  lastTapTarget (closure fresh_heap) = None ∧
  currentTouch (closure fresh_heap) = (-1)%Z ∧
  is_element_node page 1 = true ∧
  m_detail (mouse_at [1; 2; 8; 9] 1) ≠ 0%Z ∧
  dispatched
    (concat (snd (run page all_flags
                    [Mousedown (mouse_at [1; 2; 8; 9] 1);
                     Mouseup (mouse_at [1; 2; 8; 9] 1);
                     ClickEvent (mouse_at [1; 2; 8; 9] 1)] fresh_heap))) =
  [(1, tap_from_mouse "tapstart" (mouse_at [1; 2; 8; 9] 1));
   (1, tap_from_mouse "tapend" (mouse_at [1; 2; 8; 9] 1));
   (1, tap_from_mouse "tap" (mouse_at [1; 2; 8; 9] 1))].
Proof.
  assert (Hdetail : m_detail (mouse_at [1; 2; 8; 9] 1) ≠ 0%Z)
    by (intros H; discriminate H).
  repeat (split; [reflexivity || exact Hdetail|]).
  apply (mouse_click_single_fire page all_flags fresh_heap
           (mouse_at [1; 2; 8; 9] 1) (mouse_at [1; 2; 8; 9] 1)
           (mouse_at [1; 2; 8; 9] 1) 1 2 [8; 9]
           eq_refl eq_refl eq_refl eq_refl eq_refl eq_refl eq_refl eq_refl
           eq_refl Hdetail).
Defined.

(** X6: pressing on element 1 and releasing on element 2, two elements
    that share only the document and the window. *)
Lemma mouse_drag_off_no_tap_witness :
  (∀ t, t ∈ [1; 8; 9] -> t ∈ [2; 8; 9] -> is_element_node page t = false) ∧
  dispatched
    (concat (snd (run page all_flags
                    [Mousedown (mouse_at [1; 8; 9] 1);
                     Mouseup (mouse_at [2; 8; 9] 1)] fresh_heap))) =
  [(1, tap_from_mouse "tapstart" (mouse_at [1; 8; 9] 1));
   (2, tap_from_mouse "tapend" (mouse_at [2; 8; 9] 1))].
Proof.
  assert (Hapart : ∀ t, t ∈ [1; 8; 9] -> t ∈ [2; 8; 9] ->
                        is_element_node page t = false).
  { intros t H1 H2. set_unfold.
    destruct H1 as [-> | [-> | [-> | []]]]; try reflexivity.
    destruct H2 as [H | [H | [H | []]]]; discriminate H. }
  split; [exact Hapart|].
  apply (mouse_drag_off_no_tap page all_flags fresh_heap
           (mouse_at [1; 8; 9] 1) (mouse_at [2; 8; 9] 1) 1 [8; 9] 2 [8; 9]
           eq_refl eq_refl eq_refl eq_refl eq_refl eq_refl eq_refl eq_refl
           Hapart).
Defined.

(** X7: a touch tap on element 1. *)
Lemma touch_tap_single_fire_witness :
  dispatched_types
    (concat (snd (run page all_flags [Touchstart (touch_at [1; 2; 8; 9] 7);
                                      Touchend (touch_at [1; 2; 8; 9] 7)]
                      fresh_heap))) = ["tapstart"; "tapend"; "tap"] ∧
  lastTapTarget
    (closure (fst (run page all_flags [Touchstart (touch_at [1; 2; 8; 9] 7);
                                       Touchend (touch_at [1; 2; 8; 9] 7)]
                       fresh_heap))) = Some 1.
Proof.
  destruct (touch_tap_single_fire page all_flags fresh_heap
              (touch_at [1; 2; 8; 9] 7) (touch_at [1; 2; 8; 9] 7)
              {| identifier := 7; t_positions := origin |}
              {| identifier := 7; t_positions := origin |} 1 [2; 8; 9]
              eq_refl eq_refl eq_refl eq_refl eq_refl eq_refl eq_refl eq_refl)
    as (_ & Hflag & _).
  split; [reflexivity | exact Hflag].
Defined.

(** X8: pressing on element 1 and releasing on its sibling 2, both
    children of element 3. *)
Lemma mouse_drag_to_sibling_taps_parent_witness :
  1 ≠ 2 ∧ is_element_node page 3 = true ∧
  dispatched
    (concat (snd (run page all_flags
                    [Mousedown (mouse_at [1; 3; 8; 9] 1);
                     Mouseup (mouse_at [2; 3; 8; 9] 1)] fresh_heap))) =
  [(1, tap_from_mouse "tapstart" (mouse_at [1; 3; 8; 9] 1));
   (2, tap_from_mouse "tapend" (mouse_at [2; 3; 8; 9] 1));
   (3, tap_from_mouse "tap" (mouse_at [2; 3; 8; 9] 1))].
Proof.
  assert (Hne : 1 ≠ 2) by lia.
  split; [exact Hne|]. split; [reflexivity|].
  apply (mouse_drag_to_sibling_taps_parent page all_flags fresh_heap
           (mouse_at [1; 3; 8; 9] 1) (mouse_at [2; 3; 8; 9] 1) 1 2 3 8 [9]
           eq_refl eq_refl eq_refl eq_refl eq_refl eq_refl eq_refl eq_refl
           Hne eq_refl).
Defined.

(** X9: touch 7 starts on element 1, touch 8 ends, then touch 7 ends. *)
Lemma second_touch_cancels_tap_witness :
  dispatched_on "tap"
    (concat (snd (run page all_flags [Touchstart (touch_at [1; 2; 8; 9] 7);
                                      Touchend (touch_at [1; 2; 8; 9] 8);
                                      Touchend (touch_at [1; 2; 8; 9] 7)]
                      fresh_heap))) = [].
Proof.
  apply (second_touch_cancels_tap page all_flags fresh_heap
           (touch_at [1; 2; 8; 9] 7) (touch_at [1; 2; 8; 9] 8)
           (touch_at [1; 2; 8; 9] 7)
           {| identifier := 7; t_positions := origin |}
           {| identifier := 8; t_positions := origin |}
           {| identifier := 7; t_positions := origin |}
           eq_refl eq_refl eq_refl);
    intros H; discriminate H.
Defined.

(** X10 and X11 right after installation. *)
Lemma touchend_without_touchstart_witness :
  touchEventPath (closure fresh_heap) = [] ∧
  effects (on_touchend page all_flags (touch_at [1; 2; 8; 9] 7) fresh_heap)
  = [].
Proof.
  split; [reflexivity|].
  by rewrite (touchend_without_touchstart page all_flags
                (touch_at [1; 2; 8; 9] 7) fresh_heap eq_refl).
Defined.

Lemma mouseup_short_path_no_tap_witness :
  length (mouseEventPath (closure fresh_heap)) <= 1 ∧
  dispatched_on "tap"
    (effects (on_mouseup page all_flags (mouse_at [1; 2; 8; 9] 1) fresh_heap))
  = [].
Proof.
  assert (H : length (mouseEventPath (closure fresh_heap)) <= 1)
    by (simpl; lia).
  split; [exact H|].
  apply (mouseup_short_path_no_tap page all_flags (mouse_at [1; 2; 8; 9] 1)
           fresh_heap (or_introl H)).
Defined.

(** X12: a mousedown between a touchstart and its touchend. *)
Lemma mousedown_ignored_during_touch_witness :
  effects (on_mousedown page all_flags (mouse_at [1; 2; 8; 9] 1)
             (heap (on_touchstart page all_flags (touch_at [1; 2; 8; 9] 7)
                                  fresh_heap))) = [].
Proof.
  assert (Hid : identifier {| identifier := 7; t_positions := origin |}
                ≠ (-1)%Z) by (intros H; discriminate H).
  by rewrite (mousedown_ignored_during_touch page all_flags fresh_heap
                (touch_at [1; 2; 8; 9] 7) (mouse_at [1; 2; 8; 9] 1)
                {| identifier := 7; t_positions := origin |} eq_refl Hid).
Defined.

(** X14 on a target that holds a property of its own. *)
Lemma applyEvent_preserves_witness :
  properties (applyEvent {| properties := {["onclick" := JsObject 1]};
                            installations := [] |}) !! "onclick"
  = Some (JsObject 1).
Proof.
  destruct (applyEvent_preserves {| properties := {["onclick" := JsObject 1]};
                                    installations := [] |}) as [Hkeep _].
  by rewrite Hkeep.
Defined.

(** * Further properties of the track *)

Module TrackProperties.
Import Track FloatFacts TrackFacts.

(** X15. The content size of a lane is a number that is not negative,
    whatever the margin is, NaN and the infinities included: it is 0, or
    it is the lane size less the margin on each side and above 0. *)
Theorem content_region (t : Track) (index : float) :
  (0 <=? getContentSize t index)%float = true ∧
  is_nan (getContentSize t index) = false ∧
  (getContentSize t index = 0%float ∨
   getContentSize t index
   = (of_Z (getLaneSize t index) - margin t - margin t)%float ∧
   (0 <? getContentSize t index)%float = true).
Proof.
  unfold getContentSize.
  destruct (0 <? of_Z (getLaneSize t index) - margin t - margin t)%float
    eqn:H.
  - split; [by apply ltb_leb|].
    split; [by apply ltb_not_nan in H as [_ H]|]. by right.
  - split; [done|]. split; [done|]. by left.
Qed.

Lemma toBoolean_false (x : float) :
  toBoolean x = false ->
  Prim2SF x = S754_nan ∨ ∃ s, Prim2SF x = S754_zero s.
Proof.
  unfold toBoolean. destruct (is_nan x) eqn:Hnan.
  - intros _. left. by apply is_nan_spec.
  - rewrite andb_true_r, eqb_spec, Prim2SF_0. intros H. right.
    destruct (Prim2SF x) as [s | [] | | [] m e]; try done. by exists s.
Qed.

Lemma is_infinity_spec (x : float) :
  is_infinity x = true -> ∃ s, Prim2SF x = S754_infinity s.
Proof.
  unfold is_infinity. rewrite eqb_spec, abs_spec.
  change (Prim2SF infinity) with (S754_infinity false).
  destruct (Prim2SF x) as [s | s | | s m e]; try done. by exists s.
Qed.

Lemma div_not_number_l (x y : float) :
  is_number (Prim2SF x) = false -> is_number (Prim2SF (x / y)) = false.
Proof.
  rewrite div_spec.
  by destruct (Prim2SF x) as [| | |], (Prim2SF y) as [| | |].
Qed.

Lemma div_by_falsy (x y : float) :
  Prim2SF y = S754_nan ∨ (∃ s, Prim2SF y = S754_zero s) ->
  is_number (Prim2SF (x / y)) = false.
Proof.
  rewrite div_spec. intros [-> | [s ->]]; by destruct (Prim2SF x) as [| | |].
Qed.

Lemma falsy_div (x y : float) :
  Prim2SF x = S754_nan ∨ (∃ s, Prim2SF x = S754_zero s) ->
  Prim2SF (x / y) = S754_nan ∨ ∃ s, Prim2SF (x / y) = S754_zero s.
Proof.
  rewrite div_spec. intros [-> | [s ->]]; [by left|].
  destruct (Prim2SF y) as [| | |]; simpl; eauto.
Qed.

(** X16. Positions that hit nothing: without lanes, on a track whose size
    is 0 or NaN, or for a position that is NaN or infinite, [hitTest]
    returns -1. *)
Theorem hitTest_degenerate (t : Track) (mousePixel : float) :
  laneCount t = 0 ∨ toBoolean (trackSize t) = false ∨
  is_nan mousePixel = true ∨ is_infinity mousePixel = true ->
  hitTest t mousePixel = (-1)%float.
Proof.
  intros [Hnone | [Hsize | Hpixel]].
  - destruct (hitTest_cases t mousePixel) as [H | (_ & Hge & Hlt & _)];
      [done|].
    rewrite Hnone in Hlt. change (of_Z (Z.of_nat 0)) with 0%float in Hlt.
    by rewrite (leb_not_ltb _ _ Hge) in Hlt.
  - apply hitTest_not_number. unfold tried_lane.
    rewrite floor_not_number; apply div_by_falsy, falsy_div;
      by apply toBoolean_false.
  - apply hitTest_not_number. unfold tried_lane.
    assert (Hnum : is_number (Prim2SF mousePixel) = false).
    { destruct Hpixel as [H%is_nan_spec | [s H]%is_infinity_spec];
        by rewrite H. }
    rewrite floor_not_number; by apply div_not_number_l.
Qed.

















Lemma binary_round_aux_sign s m e l :
  binary_round_aux prec emax s m e l = S754_nan ∨
  has_sign s (binary_round_aux prec emax s m e l) = true.
Proof.
  unfold binary_round_aux.
  destruct (shr_fexp prec emax m e l) as [mrs' e'].
  destruct (shr_fexp prec emax _ e' loc_Exact) as [mrs'' e''].
  destruct (shr_m mrs'') as [|p|p]; [right | | by left].
  - simpl. by destruct s.
  - destruct (e'' <=? emax - prec)%Z; right; simpl; by destruct s.
Qed.

Lemma SFdiv_sign sx sy x y :
  has_sign sx x = true -> has_sign sy y = true ->
  SF64div x y = S754_nan ∨ has_sign (xorb sx sy) (SF64div x y) = true.
Proof.
  destruct x as [s1 | s1 | | s1 m1 e1], y as [s2 | s2 | | s2 m2 e2];
    try done; simpl; intros <-%Bool.eqb_prop <-%Bool.eqb_prop;
    try (by left); try (right; apply Bool.eqb_reflx).
  unfold SF64div, SFdiv.
  destruct (SFdiv_core_binary _ _ _ _ _ _) as [[mz ez] lz].
  apply binary_round_aux_sign.
Qed.

Lemma ltb_0_sign (x : float) :
  (0 <? x)%float = true -> has_sign false (Prim2SF x) = true.
Proof.
  rewrite ltb_spec, Prim2SF_0.
  by destruct (Prim2SF x) as [s | [] | | [] m e].
Qed.

Lemma ltb_sign_0 (x : float) :
  (x <? 0)%float = true -> has_sign true (Prim2SF x) = true.
Proof.
  rewrite ltb_spec, Prim2SF_0.
  by destruct (Prim2SF x) as [s | [] | | [] m e].
Qed.

Lemma of_Z_sign (z : Z) :
  (0 < z < 2 ^ 53)%Z -> has_sign false (Prim2SF (of_Z z)) = true.
Proof.
  intros Hz. destruct z as [|p|p]; [lia| |lia].
  destruct (Prim2SF_of_Z_pos p) as (m & e & -> & _); [lia|done].
Qed.

(** X24. Positions left of the track: on a track with a size above 0 and
    at least one lane, a position below 0 yields -1 or negative zero,
    never a lane after the first; negative zero is the quotient of a
    position too close to 0 for the division. *)
Theorem hitTest_negative_position (t : Track) (mousePixel : float) :
  (0 <? trackSize t)%float = true ->
  (0 < Z.of_nat (laneCount t) < 2 ^ 32)%Z ->
  (mousePixel <? 0)%float = true ->
  hitTest t mousePixel = (-1)%float ∨ hitTest t mousePixel = neg_zero.
Proof.
  intros Hsize%ltb_0_sign Hcount Hneg%ltb_sign_0.
  assert (Hlanes : has_sign false
            (Prim2SF (of_Z (Z.of_nat (laneCount t)))) = true).
  { apply of_Z_sign. change (2 ^ 32)%Z with 4294967296%Z in Hcount.
    change (2 ^ 53)%Z with 9007199254740992%Z. lia. }
  destruct (hitTest_cases t mousePixel) as [H | (Hhit & Hge & _)];
    [by left|].
  right. rewrite Hhit. clear Hhit. unfold tried_lane in *.
  set (laneSize := (trackSize t / of_Z (Z.of_nat (laneCount t)))%float) in *.
  assert (Hlane : Prim2SF laneSize = S754_nan ∨
                  has_sign false (Prim2SF laneSize) = true).
  { unfold laneSize. rewrite div_spec.
    apply (SFdiv_sign false false); done. }
  assert (Hq : Prim2SF (mousePixel / laneSize) = S754_nan ∨
               has_sign true (Prim2SF (mousePixel / laneSize)) = true).
  { rewrite div_spec. destruct Hlane as [-> | Hlane].
    - left. by destruct (Prim2SF mousePixel).
    - apply (SFdiv_sign true false); done. }
  clearbody laneSize. revert Hge. unfold floor.
  pose proof (Prim2SF_valid (mousePixel / laneSize)) as Hvalid.
  destruct (Prim2SF (mousePixel / laneSize)) as [s | s | | s m e] eqn:Hsf.
  - intros _. destruct Hq as [Hq | Hq]; [done|].
    destruct s; [|done]. by apply Prim2SF_inj.
  - rewrite leb_spec, Prim2SF_0, Hsf.
    destruct Hq as [Hq | Hq]; [done|]. by destruct s.
  - by rewrite leb_spec, Prim2SF_0, Hsf.
  - destruct Hq as [Hq | Hq]; [done|]. destruct s; [|done].
    pose proof (finite_mantissa _ _ _ Hvalid) as Hm.
    destruct (Z.leb_spec 0 e) as [Hnn | Hlt].
    + by rewrite leb_spec, Prim2SF_0, Hsf.
    + rewrite of_Z_negative; [done|].
      assert (Hpow : (1 <= 2 ^ (- e))%Z).
      { pose proof (pow2_pos (- e)). lia. }
      assert (Z.neg m / 2 ^ (- e) < 0)%Z
        by (apply Z.div_lt_upper_bound; lia).
      assert (Z.neg m <= Z.neg m / 2 ^ (- e))%Z
        by (apply Z.div_le_lower_bound; nia).
      lia.
Qed.

(** ** Concrete tracks *)

(** X16 on a new track, which has no lane. *)
Lemma hitTest_degenerate_witness :
  hitTest new 5 = (-1)%float.
Proof.
  apply (hitTest_degenerate new 5). left. reflexivity.
Defined.



(** X24 on the same track. *)
Lemma hitTest_negative_position_witness :
  hitTest (init new 100 3) (-1) = (-1)%float ∨
  hitTest (init new 100 3) (-1) = neg_zero.
Proof.
  apply (hitTest_negative_position (init new 100 3) (-1)).
  - reflexivity.
  - vm_compute. split; reflexivity.
  - reflexivity.
Defined.

Example init_100_3 :
  init new 100 3 =
  {| laneSizes := [Some 33%Z; Some 33%Z; Some 34%Z];
     laneStarts := [Some 0%Z; Some 33%Z; Some 66%Z];
     trackSize := 100%float; margin := 0.5%float |}.
Proof. vm_compute. reflexivity. Qed.

Example hitTest_content :
  hitTest (init new 100 3) 40 = 1%float.
Proof. vm_compute. reflexivity. Qed.

Example hitTest_margin :
  hitTest (init new 100 3) 33.1 = (-1)%float.
Proof. vm_compute. reflexivity. Qed.

Example hitTest_no_lanes :
  hitTest new 5 = (-1)%float.
Proof. vm_compute. reflexivity. Qed.

(** The sum of twelve lane widths of [100 / 12] is rounded at every
    step, and the last lane is 8 pixels wide, not 9. *)
Example init_100_12 :
  laneSizes (init new 100 12) =
  Some <$> [8; 8; 9; 8; 8; 9; 8; 8; 9; 8; 8; 8]%Z.
Proof. vm_compute. reflexivity. Qed.

(** [| 0] wraps: the end of the last lane of a track just below 2^31
    pixels is rounded up to 2^31, which [| 0] turns into -2^31. *)
Example init_wraps :
  laneSizes (init new 2147483647.9999998 3) =
  Some <$> [715827882; 715827883; -3579139413]%Z.
Proof. vm_compute. reflexivity. Qed.

(** The quotient [14.5 / (29 / 14)] is rounded to a number below 7:
    [hitTest] tries lane 6 and misses. *)
Example hitTest_rounded_quotient :
  hitTest (init new 29 14) 14.5 = (-1)%float.
Proof. vm_compute. reflexivity. Qed.

(** [10 + 0.1] is rounded to the number that [10.1] denotes. *)
Example hitTest_rounded_start :
  hitTest (set_margin (init new 30 3) 0.1) 10.1 = 1%float.
Proof. vm_compute. reflexivity. Qed.

(** The content end is a rounded sum. *)
Example getContentEnd_rounded :
  getContentEnd (set_margin (init new 3 3) 0.1) 1 = 1.9000000000000001%float.
Proof. vm_compute. reflexivity. Qed.

(** The least negative number divided by the lane width gives negative
    zero, which denotes lane 0; with a negative margin the position is in
    its content region. *)
Example hitTest_negative_zero :
  hitTest (set_margin (init new 100 3) (-1)) (-0x1p-1074) = neg_zero.
Proof. vm_compute. reflexivity. Qed.

(** With the margin [-Infinity] the content end is NaN. *)
Example hitTest_infinite_margin :
  hitTest (set_margin (init new 100 3) neg_infinity) 40 = 1%float ∧
  is_nan (getContentEnd (set_margin (init new 100 3) neg_infinity) 1) = true.
Proof. vm_compute. split; reflexivity. Qed.

(** X25. [hitTest] can miss a lane when the lane width is not a whole
    number: on the track of 100 pixels with 3 lanes, position 66.6 lies in
    the content region of lane 2, from 66.5 to 99.5, and [hitTest] returns
    -1, because the lane it tries is the one that [66.6 / (100 / 3)]
    falls in, lane 1. *)
Theorem hitTest_misses_content :
  ∃ (t : Track) (i : Z) (mp : float),
    t = init new 100 3 ∧ mp = 66.6%float ∧
    (0 <= i < Z.of_nat (laneCount t))%Z ∧
    (getContentStart t (of_Z i) <=? mp)%float = true ∧
    (mp <? getContentEnd t (of_Z i))%float = true ∧
    hitTest t mp = (-1)%float.
Proof.
  exists (init new 100 3), 2%Z, 66.6%float.
  split; [done|]. split; [done|]. split; [vm_compute; split; congruence|].
  split; [by vm_compute|]. split; by vm_compute.
Qed.

End TrackProperties.
